(** * h265_transcoder.tasks: the queue-driven transcoding state machine

    A shallow embedding of [src/h265_transcoder/tasks.py].  The SQLite
    table [queue] is a list of rows in rowid order, the file system is a
    finite map from absolute paths to file sizes, and every function of
    the module is a computation in a small state-and-exception monad over
    a [World].  The external tools (ffmpeg, exiftool), the directory
    listing and the two environment variables are parameters.

    Strings are byte strings: a Python [str] is modelled by its UTF-8
    encoding, and a name that [os.walk] or [os.getenv] decoded with
    [surrogateescape] by the bytes it was decoded from.  The [str] methods
    that look for ASCII text ([endswith], [replace], [removesuffix]) are
    the same on the bytes.  Those that consult the Unicode database of the
    interpreter ([int], [repr], [lower], [strip]) are computed for ASCII
    text; see [Py.unicode] for the rest. *)

From Stdlib Require Import ZArith Ascii String.
From stdpp Require Import base list strings gmap pretty sorting.

Local Open Scope Z_scope.

(** ** Python string methods *)

Module Py.

(** [s.startswith(pre)] *)
Fixpoint startswith (s pre : string) {struct pre} : bool :=
  match pre with
  | EmptyString => true
  | String a pre' =>
      match s with
      | String b s' => Ascii.eqb a b && startswith s' pre'
      | EmptyString => false
      end
  end.

(** [s.endswith(suf)]: [s] is [suf], or its tail ends with [suf]. *)
Fixpoint endswith (s suf : string) : bool :=
  String.eqb s suf
  || match s with
     | EmptyString => false
     | String _ s' => endswith s' suf
     end.

(** [s[n:]] *)
Fixpoint drop (n : nat) (s : string) : string :=
  match n, s with
  | O, _ => s
  | S n', String _ s' => drop n' s'
  | S _, EmptyString => EmptyString
  end.

(** [s.isascii()] *)
Fixpoint isascii (s : string) : bool :=
  match s with
  | EmptyString => true
  | String c s' => (nat_of_ascii c <? 128)%nat && isascii s'
  end.

(** Well-formed UTF-8, as the strict codec has it: no overlong form, no
    surrogate, nothing above U+10FFFF.  [more] is the number of
    continuation bytes still to come, and the next one is to be in
    [lo..hi]. *)
Fixpoint utf8_from (more lo hi : nat) (s : string) : bool :=
  match s with
  | EmptyString => (more =? 0)%nat
  | String c s' =>
      let n := nat_of_ascii c in
      match more with
      | S more' => (lo <=? n)%nat && (n <=? hi)%nat && utf8_from more' 128 191 s'
      | O =>
          if (n <? 128)%nat then utf8_from 0 128 191 s'
          else if ((194 <=? n) && (n <=? 223))%nat then utf8_from 1 128 191 s'
          else if (n =? 224)%nat then utf8_from 2 160 191 s'
          else if ((225 <=? n) && (n <=? 236) || (238 <=? n) && (n <=? 239))%nat
               then utf8_from 2 128 191 s'
          else if (n =? 237)%nat then utf8_from 2 128 159 s'
          else if (n =? 240)%nat then utf8_from 3 144 191 s'
          else if ((241 <=? n) && (n <=? 243))%nat then utf8_from 3 128 191 s'
          else if (n =? 244)%nat then utf8_from 3 128 143 s'
          else false
      end
  end.

(** Whether [s.encode("utf-8")] succeeds: a name with a byte that
    [surrogateescape] had to escape has a lone surrogate, and
    [UnicodeEncodeError] is raised. *)
Definition encodable (s : string) : bool := utf8_from 0 128 191 s.

(** [s.removesuffix(suf)] *)
Definition removesuffix (s suf : string) : string :=
  if endswith s suf
  then String.substring 0 (String.length s - String.length suf) s
  else s.

(** [s.replace(old, new)] for the empty [old]: [new] goes before every
    character and at the end. *)
Fixpoint replace_empty (new s : string) : string :=
  match s with
  | EmptyString => new
  | String c s' => new +:+ String c (replace_empty new s')
  end.

(** The left-to-right scan of [s.replace(old, new)] for a non-empty [old]:
    at an occurrence of [old] emit [new] and jump over it, otherwise copy
    one character.  [fuel] bounds the number of steps; the length of [s]
    is enough. *)
Fixpoint replace_scan (fuel : nat) (old new s : string) : string :=
  match fuel with
  | O => s
  | S fuel' =>
      match s with
      | EmptyString => EmptyString
      | String c s' =>
          if startswith s old
          then new +:+ replace_scan fuel' old new (drop (String.length old) s)
          else String c (replace_scan fuel' old new s')
      end
  end.

(** [s.replace(old, new)]: every non-overlapping occurrence, leftmost
    first. *)
Definition replace (s old new : string) : string :=
  match old with
  | EmptyString => replace_empty new s
  | String _ _ => replace_scan (String.length s) old new s
  end.

(** The Unicode database of the interpreter is not modelled.  What
    [int(s)] ([None] is [ValueError]), [repr(s)] and [s.lower().strip()]
    are for a string with a character outside ASCII is taken from the
    interpreter. *)
Record unicode := Unicode {
  unicode_int : string → option Z;
  unicode_repr : string → string;
  unicode_lower_strip : string → string
}.

(** [c.isspace()] on the ASCII range: TAB, LF, VT, FF, CR, FS, GS, RS, US
    and the space. *)
Definition isspace (c : ascii) : bool :=
  let n := nat_of_ascii c in
  ((9 <=? n) && (n <=? 13) || (28 <=? n) && (n <=? 32))%nat.

Definition lower_char (c : ascii) : ascii :=
  let n := nat_of_ascii c in
  if ((65 <=? n) && (n <=? 90))%nat then ascii_of_nat (n + 32) else c.

(** [s.lower()] *)
Fixpoint lower (s : string) : string :=
  match s with
  | EmptyString => EmptyString
  | String c s' => String (lower_char c) (lower s')
  end.

Fixpoint lstrip (s : string) : string :=
  match s with
  | EmptyString => EmptyString
  | String c s' => if isspace c then lstrip s' else s
  end.

Fixpoint rstrip (s : string) : string :=
  match s with
  | EmptyString => EmptyString
  | String c s' =>
      match rstrip s' with
      | EmptyString => if isspace c then EmptyString else String c EmptyString
      | t => String c t
      end
  end.

(** [s.strip()] *)
Definition strip (s : string) : string := rstrip (lstrip s).

(** [s.lower().strip()] *)
Definition lower_strip (u : unicode) (s : string) : string :=
  if isascii s then strip (lower s) else unicode_lower_strip u s.

Definition isdigit (c : ascii) : bool :=
  let n := nat_of_ascii c in ((48 <=? n) && (n <=? 57))%nat.

Definition digit_value (c : ascii) : Z := Z.of_nat (nat_of_ascii c) - 48.

(** The digits of a decimal literal: at least one digit, single
    underscores allowed between digits.  [prev] tells whether the previous
    character was a digit; [count] is the number of digits read. *)
Fixpoint int_digits (s : string) (acc : Z) (prev : bool) (count : nat)
  : option (Z * nat) :=
  match s with
  | EmptyString => if prev then Some (acc, count) else None
  | String c s' =>
      if isdigit c then int_digits s' (10 * acc + digit_value c) true (S count)
      else if Ascii.eqb c "_" && prev then int_digits s' acc false count
      else None
  end.

(** CPython's default [sys.int_max_str_digits]. *)
Definition int_max_str_digits : nat := 4300.

(** [int(s)] for an ASCII string: surrounding whitespace is dropped, then
    an optional sign and the digits.  [None] is [ValueError]. *)
Definition int_ascii (s : string) : option Z :=
  let body (neg : bool) (t : string) :=
    match int_digits t 0 false 0 with
    | Some (v, count) =>
        if (int_max_str_digits <? count)%nat then None
        else Some (if neg then - v else v)
    | None => None
    end in
  match strip s with
  | String "-" t => body true t
  | String "+" t => body false t
  | t => body false t
  end.

(** [int(s)] *)
Definition int (u : unicode) (s : string) : option Z :=
  if isascii s then int_ascii s else unicode_int u s.

(** The digits of [f"{n:,}"]: a comma before every group of three digits
    counted from the right. *)
Fixpoint group_thousands (digits : string) : string :=
  match digits with
  | EmptyString => EmptyString
  | String c rest =>
      let k := String.length rest in
      if ((0 <? k) && (k mod 3 =? 0))%nat
      then String c ("," +:+ group_thousands rest)
      else String c (group_thousands rest)
  end.

(** [f"{n:,}"] *)
Definition format_thousands (n : Z) : string :=
  if n <? 0 then "-" +:+ group_thousands (pretty (Z.abs_N n))
  else group_thousands (pretty (Z.abs_N n)).

(** [c in s] for a single character. *)
Fixpoint contains (c : ascii) (s : string) : bool :=
  match s with
  | EmptyString => false
  | String d s' => Ascii.eqb c d || contains c s'
  end.

Definition hex_digit (n : nat) : ascii :=
  if (n <? 10)%nat then ascii_of_nat (48 + n) else ascii_of_nat (87 + n).

(** One character of [repr(s)] inside the quotes [q]. *)
Definition repr_char (q c : ascii) : string :=
  let n := nat_of_ascii c in
  if Ascii.eqb c "\" then "\\"
  else if Ascii.eqb c q then String "\" (String q EmptyString)
  else if (n =? 10)%nat then "\n"
  else if (n =? 13)%nat then "\r"
  else if (n =? 9)%nat then "\t"
  else if ((n <? 32) || (n =? 127))%nat
       then "\x" +:+ String (hex_digit (n / 16)) (String (hex_digit (n mod 16)) EmptyString)
  else String c EmptyString.

Fixpoint repr_body (q : ascii) (s : string) : string :=
  match s with
  | EmptyString => EmptyString
  | String c s' => repr_char q c +:+ repr_body q s'
  end.

(** [repr(s)] of a string of printable characters, as the [=] specifier
    of an f-string prints it: single quotes, unless the string has a single
    quote and no double quote.  A character outside ASCII is copied, as
    [repr] does with a printable one. *)
Definition repr_printable (s : string) : string :=
  let dq := ascii_of_nat 34 in
  let q : ascii := if contains "'" s && negb (contains dq s) then dq else "'"%char in
  String q (repr_body q s +:+ String q EmptyString).

(** [repr(s)] *)
Definition repr (u : unicode) (s : string) : string :=
  if isascii s then repr_printable s else unicode_repr u s.

End Py.

(** ** The SQLite table [queue] *)

Module Queue.

(** One row per discovered file; all four columns are text. *)
Record row := Row {
  path : string;
  filename : string;
  transcode : string;
  status : string
}.

#[global] Instance row_eq_dec : EqDecision row.
Proof. solve_decision. Defined.

Definition key (r : row) : string * string := (path r, filename r).

Definition set_status (st : string) (r : row) : row :=
  Row (path r) (filename r) (transcode r) st.

(** [UPDATE queue SET status = ? WHERE path = ? AND filename = ?] *)
Definition update (st p f : string) (tbl : list row) : list row :=
  (λ r, if decide (key r = (p, f)) then set_status st r else r) <$> tbl.

(** [SELECT path, filename FROM queue WHERE ...], in rowid order. *)
Definition select_where (cond : row → bool) (tbl : list row)
  : list (string * string) :=
  key <$> List.filter cond tbl.

(** [LIMIT n]: the first [n] result rows, all of them for a negative [n].
    The limit is a 64-bit integer: a literal outside that range is read as
    a real number and the statement fails with [datatype mismatch], an
    [sqlite3.Error]; that is [None]. *)
Fixpoint first_rows (n : Z) (rows : list (string * string))
  : list (string * string) :=
  match rows with
  | [] => []
  | row :: rest => if n <=? 0 then [] else row :: first_rows (n - 1) rest
  end.

Definition limit (n : Z) (rows : list (string * string))
  : option (list (string * string)) :=
  if (n <? - 2 ^ 63) || (2 ^ 63 <=? n) then None
  else if n <? 0 then Some rows
  else Some (first_rows n rows).

(** The columns of a result in the order of the index of the unique
    constraint: by path, then by filename, bytewise. *)
Definition key_le (k1 k2 : string * string) : Prop :=
  match String.compare k1.1 k2.1 with
  | Lt => True
  | Eq => String.leb k1.2 k2.2 = true
  | Gt => False
  end.

#[global] Instance key_le_dec : RelDecision key_le.
Proof. intros k1 k2. unfold key_le. destruct (String.compare k1.1 k2.1); apply _. Defined.

(** [COUNT(status)] of one group. *)
Definition count_status (st : string) (tbl : list row) : nat :=
  length (List.filter (λ r, bool_decide (status r = st)) tbl).

(** [SELECT status, COUNT(status) FROM queue GROUP BY status]: one result
    row per distinct status. *)
Definition group_by_status (tbl : list row) : list (string * nat) :=
  (λ st, (st, count_status st tbl)) <$> remove_dups (status <$> tbl).

(** Modelled from the spec: the schema file that creates the table is not
    part of the sources; the table has a unique constraint on
    [(path, filename)], so an [INSERT] of a key that is present fails with
    [sqlite3.IntegrityError] (the error [insert_scan_results] catches). *)
Definition violates_unique (r : row) (tbl : list row) : bool :=
  bool_decide (key r ∈ key <$> tbl).

(** Binding the four parameters of the [INSERT] encodes each as UTF-8. *)
Definition encodable (r : row) : bool :=
  Py.encodable (path r) && Py.encodable (filename r)
  && Py.encodable (transcode r) && Py.encodable (status r).

(** How an [executemany] ends: normally, with [sqlite3.IntegrityError],
    or with the [UnicodeEncodeError] of a parameter that cannot be
    bound. *)
Inductive executemany_end := Executed | Duplicate | Unencodable.

(** [cursor.executemany(INSERT ..., rows)]: the statement runs once per
    parameter set, in order: the parameters are bound, then the row is
    inserted.  The first parameter set that fails raises and the remaining
    ones are not executed.  The rows inserted before it stay in the open
    transaction. *)
Fixpoint executemany_insert (rows tbl : list row) : list row * executemany_end :=
  match rows with
  | [] => (tbl, Executed)
  | r :: rest =>
      if negb (encodable r) then (tbl, Unencodable)
      else if violates_unique r tbl then (tbl, Duplicate)
      else executemany_insert rest (tbl ++ [r])
  end.

End Queue.

(** ** The world: table, files, log *)

(** The levels of the logger; TRANSCODE is the level of the progress
    lines. *)
Inductive level := DEBUG | INFO | WARNING | ERROR | TRANSCODE.

(** What a run does, in order: log records and the effects on the table,
    the file system and the external engine. *)
Inductive event :=
  | Log (lvl : level) (msg : string)
  | DbUpdate (path filename status : string)
  | FFmpegExecute (input output title : string)
  | Unlink (file : string)
  | Rename (src dst : string).

#[global] Instance level_eq_dec : EqDecision level.
Proof. solve_decision. Defined.
#[global] Instance event_eq_dec : EqDecision event.
Proof. solve_decision. Defined.

(** [db_ok] is [false] when the storage is broken: every statement then
    raises [sqlite3.Error]. *)
Record World := mkWorld {
  queue : list Queue.row;
  files : gmap string N;
  db_ok : bool;
  events : list event
}.

Definition set_queue (q : list Queue.row) (w : World) : World :=
  mkWorld q (files w) (db_ok w) (events w).
Definition set_files (fs : gmap string N) (w : World) : World :=
  mkWorld (queue w) fs (db_ok w) (events w).
Definition add_event (e : event) (w : World) : World :=
  mkWorld (queue w) (files w) (db_ok w) (events w ++ [e]).

Inductive exn :=
  | FileNotFoundError (file : string)
  | AttributeError (attr : string)
  | UnboundLocalError (var : string)
  | KeyError (k : string)
  | CalledProcessError
  | UnicodeDecodeError
  | UnicodeEncodeError.

(** How a call ends: a value, an exception that propagates, or
    [SystemExit]. *)
Inductive result (A : Type) :=
  | Ret (a : A)
  | Raise (e : exn)
  | SystemExit (code : Z).
Arguments Ret {A} a.
Arguments Raise {A} e.
Arguments SystemExit {A} code.

Definition M (A : Type) : Type := World → result A * World.

Definition ret {A} (a : A) : M A := λ w, (Ret a, w).
Definition raise {A} (e : exn) : M A := λ w, (Raise e, w).
Definition sys_exit {A} (code : Z) : M A := λ w, (SystemExit code, w).

Definition bind {A B} (k : A → M B) (m : M A) : M B := λ w,
  match m w with
  | (Ret a, w') => k a w'
  | (Raise e, w') => (Raise e, w')
  | (SystemExit c, w') => (SystemExit c, w')
  end.

#[global] Instance M_ret : MRet M := @ret.
#[global] Instance M_bind : MBind M := @bind.

(** [try: body finally: fin]: [fin] runs however [body] ends; if [fin]
    itself ends abnormally, that takes over. *)
Definition try_finally {A} (body : M A) (fin : M unit) : M A := λ w,
  let '(r, w1) := body w in
  match fin w1 with
  | (Ret _, w2) => (r, w2)
  | (Raise e, w2) => (Raise e, w2)
  | (SystemExit c, w2) => (SystemExit c, w2)
  end.

Definition emit (e : event) : M unit := λ w, (Ret (), add_event e w).
Definition log (lvl : level) (msg : string) : M unit := emit (Log lvl msg).
Definition get {A} (f : World → A) : M A := λ w, (Ret (f w), w).

(** [logger.exception(sqlite3.Error)]: an ERROR record of the class. *)
Definition log_exception_sqlite : M unit := log ERROR "<class 'sqlite3.Error'>".

(** ** [pathlib.Path] *)

Module Path.

Definition exists_ (p : string) : M bool :=
  get (λ w, bool_decide (is_Some (files w !! p))).

Definition unlink (p : string) : M unit := λ w,
  match files w !! p with
  | Some _ => (Ret (), add_event (Unlink p) (set_files (delete p (files w)) w))
  | None => (Raise (FileNotFoundError p), w)
  end.

(** [Path(src).replace(dst)]: rename, overwriting [dst]. *)
Definition replace (src dst : string) : M unit := λ w,
  match files w !! src with
  | Some size =>
      (Ret (), add_event (Rename src dst)
                 (set_files (<[dst := size]> (delete src (files w))) w))
  | None => (Raise (FileNotFoundError src), w)
  end.

Definition stat_size (p : string) : M N := λ w,
  match files w !! p with
  | Some size => (Ret size, w)
  | None => (Raise (FileNotFoundError p), w)
  end.

End Path.

(** ** [sqlite3] through [DatabaseInterface] *)

Module Db.

(** Modelled from the spec: [h265_transcoder.interfaces.DatabaseInterface]
    is not part of the sources.  It is the scoped acquisition of the
    storage connection for one statement group: entering the [with] block
    yields the connection and a cursor, leaving it commits and releases
    them.  A statement that succeeded inside the block is therefore in the
    table once the block is left, and every operation below is one such
    block.  Each operation is a single logical transaction: when an
    exception leaves the block, what the block did to the table is not
    committed.

    [cursor.execute(SELECT path, filename ... WHERE ...).fetchall()], with
    the [LIMIT] clause when there is one; [None] is [sqlite3.Error]. *)
Definition select (cond : Queue.row → bool) (lim : option Z)
  : M (option (list (string * string))) := λ w,
  if db_ok w then
    let rows := Queue.select_where cond (queue w) in
    (Ret (match lim with Some n => Queue.limit n rows | None => Some rows end), w)
  else (Ret None, w).

(** [cursor.execute(SELECT path, filename FROM queue).fetchall()]: both
    columns are in the index of the unique constraint, and the result
    comes from that index, in key order. *)
Definition select_keys : M (option (list (string * string))) := λ w,
  if db_ok w then (Ret (Some (merge_sort Queue.key_le (Queue.key <$> queue w))), w)
  else (Ret None, w).

(** The status query of the report; [None] is [sqlite3.Error]. *)
Definition select_status_counts : M (option (list (string * nat))) := λ w,
  if db_ok w then (Ret (Some (Queue.group_by_status (queue w))), w)
  else (Ret None, w).

(** The [UPDATE] of [update_status]; [false] is [sqlite3.Error]. *)
Definition update (st p f : string) : M bool := λ w,
  if db_ok w
  then (Ret true, add_event (DbUpdate p f st) (set_queue (Queue.update st p f (queue w)) w))
  else (Ret false, w).

(** How the [executemany] of [insert_scan_results] ends: normally, with
    [sqlite3.IntegrityError], with another [sqlite3.Error], or with
    [UnicodeEncodeError], which is no [sqlite3.Error]. *)
Inductive insert_outcome := Inserted | IntegrityError | Error | EncodeError.

(** [insert_scan_results] handles the first three inside the block; the
    last leaves the block, so the rows inserted before it are not
    committed. *)
Definition executemany_insert (rows : list Queue.row) : M insert_outcome := λ w,
  if db_ok w then
    match Queue.executemany_insert rows (queue w) with
    | (tbl, Queue.Executed) => (Ret Inserted, set_queue tbl w)
    | (tbl, Queue.Duplicate) => (Ret IntegrityError, set_queue tbl w)
    | (_, Queue.Unencodable) => (Ret EncodeError, w)
    end
  else (Ret Error, w).

End Db.

(** ** tasks.py

    The [sqlite_db] argument of every function names the database file;
    the world has one table, so the argument is left out. *)

(** [for x in l: body(x)] *)
Fixpoint for_each {A} (l : list A) (body : A → M unit) : M unit :=
  match l with
  | [] => mret ()
  | x :: l' => body x;; for_each l' body
  end.

(** A local variable that the path taken may not have bound. *)
Definition getlocal {A} (name : string) (v : option A) : M A :=
  match v with
  | Some a => mret a
  | None => raise (UnboundLocalError name)
  end.

(** [obj.name] for an attribute that [__init__] may not have set. *)
Definition getattr {A} (name : string) (v : option A) : M A :=
  match v with
  | Some a => mret a
  | None => raise (AttributeError name)
  end.

(** [d[k]] *)
Definition getitem (d : gmap string nat) (k : string) : M nat :=
  match d !! k with
  | Some v => mret v
  | None => raise (KeyError k)
  end.

(** A failed update is logged and the call returns normally. *)
Definition update_status (path filename status : string) : M unit :=
  let status_update_data :=
    "(" +:+ Py.repr_printable status +:+ ", " +:+ Py.repr_printable path +:+ ", "
        +:+ Py.repr_printable filename +:+ ")" in
  ok ← Db.update status path filename;
  if ok : bool then
    log INFO ("Updated status for '" +:+ path +:+ "/" +:+ filename
              +:+ "' to '" +:+ status +:+ "'.")
  else
    log DEBUG ("status_update_data=" +:+ status_update_data);;
    log ERROR "SQLite transcode status update failed.";;
    log_exception_sqlite.

(** The float nearest to the integer [a], ties to even: [a] when it has
    at most 53 bits. *)
Definition round_to_float (a : N) : N :=
  if (a <? 2 ^ 53)%N then a
  else
    let e := (N.log2 a - 52)%N in
    let q := N.shiftr a e in
    let r := N.land a (N.ones e) in
    let half := (2 ^ (e - 1))%N in
    let q' := if (half <? r)%N || (half =? r)%N && N.odd q then (q + 1)%N else q in
    N.shiftl q' e.

(** [int(a / 2**k)]: the true division of two integers is the float
    nearest to the quotient, and a division by a power of two scales the
    float nearest to [a]. *)
Definition int_true_div_pow2 (a k : N) : N := N.shiftr (round_to_float a) k.

Definition get_file_size (filename : string) : M N :=
  byte_size ← Path.stat_size filename;
  let gigabyte := 1073741824%N in
  let megabyte := 1048576%N in
  (if (gigabyte <=? byte_size)%N then
     log INFO ("'" +:+ filename +:+ "' is "
               +:+ pretty (int_true_div_pow2 byte_size 30) +:+ "GB.")
   else if (megabyte <=? byte_size)%N then
     log INFO ("'" +:+ filename +:+ "' is "
               +:+ pretty (int_true_div_pow2 byte_size 20) +:+ "MB.")
   else
     log INFO ("'" +:+ filename +:+ "' is "
               +:+ Py.format_thousands (Z.of_N byte_size) +:+ "B."));;
  mret byte_size.

(** How [FFmpeg.execute()] ends: normally, with [FFmpegError], or with
    another exception (a missing ffmpeg binary is [FileNotFoundError]). *)
Inductive ffmpeg_result := Completed | FFmpegError | OtherError (e : exn).

(** The external engine: from the input path, the output path, the title
    and the file system to its outcome and the file system it leaves.  Its
    [start] and [progress] callbacks only log and are left out. *)
Definition engine : Type :=
  string → string → string → gmap string N → ffmpeg_result * gmap string N.

Module Transcode.

Record t := Build {
  path : string;
  filename : string;
  input_file : string;
  output_file : option string;
  video_title : option string
}.

(** [Transcode.__init__]: [output_file] and [video_title] are set only
    for the two extensions. *)
Definition init (path filename : string) : t :=
  let input_file := path +:+ "/" +:+ filename in
  if Py.endswith filename ".mkv" then
    Build path filename input_file
      (Some (Py.replace input_file ".mkv" ".mp4"))
      (Some (Py.removesuffix filename ".mkv"))
  else if Py.endswith filename ".mp4" then
    Build path filename input_file
      (Some (Py.replace input_file ".mp4" ".h265"))
      (Some (Py.removesuffix filename ".mp4"))
  else Build path filename input_file None None.

Section Engine.
Variable ffmpeg : engine.

(** [ffmpeg.execute()] *)
Definition execute (input output title : string) : M ffmpeg_result := λ w,
  let '(r, fs) := ffmpeg input output title (files w) in
  (Ret r, set_files fs (add_event (FFmpegExecute input output title) w)).

(** [Transcode.transcode].  The attributes are read, before the [try],
    when the command is built.  The [else] and the [except] block are the
    branches on a normal end of [execute] and on [FFmpegError]; each
    starts by binding [transcode_status].  Another exception has no
    handler and binds nothing.  The [finally] clause runs after each, also
    when the block raised, and reads [transcode_status]. *)
Definition transcode (self : t) : M string :=
  update_status (path self) (filename self) "active";;
  output ← getattr "output_file" (output_file self);
  title ← getattr "video_title" (video_title self);
  log INFO ("Transcoding '" +:+ input_file self +:+ "' to '" +:+ output +:+ "'.");;
  r ← execute (input_file self) output title;
  let transcode_status :=
    match r with
    | Completed => Some "done"
    | FFmpegError => Some "failed"
    | OtherError _ => None
    end in
  try_finally
    (match r with
     | OtherError e => raise e
     | FFmpegError =>
         log ERROR ("Failed to transcode '" +:+ input_file self +:+ "'");;
         present ← Path.exists_ output;
         if present : bool then
           log DEBUG "Removing the failed output file.";;
           Path.unlink output;;
           log DEBUG "Removed output file."
         else
           log DEBUG ("Nothing to remove. '" +:+ output +:+ "' not found.")
     | Completed =>
         log INFO ("'" +:+ input_file self +:+ "' transcoded successfully.");;
         input_size ← get_file_size (input_file self);
         output_size ← get_file_size output;
         let diff_size := Z.of_N input_size - Z.of_N output_size in
         log INFO ("Recovered " +:+ Py.format_thousands diff_size
                   +:+ " bytes in trandcoding.")
     end)
    (transcode_status ← getlocal "transcode_status" transcode_status;
     update_status (path self) (filename self) transcode_status);;
  getlocal "transcode_status" transcode_status.

End Engine.

(** [Transcode.delete_original]; with neither extension [cleanup_msg] is
    unbound at the final [logger.info]. *)
Definition delete_original (self : t) : M unit :=
  if Py.endswith (input_file self) ".mkv" then
    Path.unlink (input_file self);;
    log INFO ("Deleted '" +:+ input_file self +:+ "'.")
  else if Py.endswith (input_file self) ".mp4" then
    output ← getattr "output_file" (output_file self);
    Path.replace output (input_file self);;
    log INFO ("Renamed '" +:+ output +:+ "' to '" +:+ input_file self +:+ "'.")
  else raise (UnboundLocalError "cleanup_msg").

End Transcode.

Definition initial_states : gmap string nat :=
  {[ "done" := 0%nat; "failed" := 0%nat; "queued" := 0%nat;
     "skipped" := 0%nat; "unknown" := 0%nat ]}.

Definition is_failed (r : Queue.row) : bool :=
  bool_decide (Queue.status r = "failed").

(** [WHERE transcode = 'Y' AND status = 'queued'] *)
Definition is_queued (r : Queue.row) : bool :=
  bool_decide (Queue.transcode r = "Y") && bool_decide (Queue.status r = "queued").

Definition final_count_msg (done failed queued skipped unknown : nat) : string :=
  pretty done +:+ " done, " +:+ pretty failed +:+ " failed, "
  +:+ pretty queued +:+ " queued, " +:+ pretty skipped +:+ " skipped, "
  +:+ pretty unknown +:+ " unknown.".

Definition failed_result_msg (entry : string * string) : string :=
  "Failed to transcode '" +:+ entry.1 +:+ "/" +:+ entry.2 +:+ "'.".

(** Both queries are in one [try]; when one fails its result variable is
    never bound, and the first use after the block raises. *)
Definition final_results : M unit :=
  status_data ← Db.select_status_counts;
  failed_data ←
    match status_data with
    | Some _ => Db.select is_failed None
    | None => mret None
    end;
  match status_data, failed_data with
  | Some _, Some _ => mret ()
  | _, _ => log ERROR "SQLite status query failed.";; log_exception_sqlite
  end;;
  match status_data with
  | None => raise (UnboundLocalError "status_data")
  | Some status_data =>
      let states :=
        foldl (λ states values, <[values.1 := values.2]> states)
              initial_states status_data in
      done ← getitem states "done";
      failed ← getitem states "failed";
      queued ← getitem states "queued";
      skipped ← getitem states "skipped";
      unknown ← getitem states "unknown";
      log INFO (final_count_msg done failed queued skipped unknown);;
      match failed_data with
      | None => raise (UnboundLocalError "failed_data")
      | Some failed_data =>
          for_each failed_data (λ entry, log INFO (failed_result_msg entry))
      end
  end.

(** When the query fails, [failed_status_data] is unbound at the [if]. *)
Definition retry_failed : M (list (string * string)) :=
  r ← Db.select is_failed None;
  match r with
  | None =>
      log ERROR "SQLite status query failed.";;
      log_exception_sqlite;;
      raise (UnboundLocalError "failed_status_data")
  | Some failed_status_data =>
      match failed_status_data with
      | _ :: _ =>
          log INFO ("Found " +:+ pretty (length failed_status_data)
                    +:+ " failed transcoding(s).")
      | [] => log INFO "No failed transcodings."
      end;;
      mret failed_status_data
  end.

(** The [finally] clause logs the length of the batch, whatever was
    inserted. *)
Definition insert_scan_results (insert_list : list Queue.row) : M unit :=
  log DEBUG "Inserting scanned results into SQLite database.";;
  try_finally
    (r ← Db.executemany_insert insert_list;
     match r with
     | Db.Inserted => mret ()
     | Db.IntegrityError => log ERROR "Duplicate filename found in SQLite table."
     | Db.Error =>
         log ERROR "SQLite insert execution failed.";;
         log_exception_sqlite;;
         sys_exit 1
     | Db.EncodeError => raise UnicodeEncodeError
     end)
    (log INFO ("Successfully inserted " +:+ pretty (length insert_list)
               +:+ " entries into SQLite 'queue' table.")).

(** *** The classifier *)

Section Classifier.
Variable unicode : Py.unicode.
(** [subprocess.run] of [exiftool -s3 -CompressorID file] and of
    [exiftool -s3 -DocType file]: the standard output as text, or the
    exception raised: [CalledProcessError] when the tool exits with a
    non-zero code ([check = True]), [UnicodeDecodeError] when its output
    is not text ([text = True]), [FileNotFoundError] when the tool is
    missing. *)
Variable exiftool_CompressorID : string → exn + string.
Variable exiftool_DocType : string → exn + string.

Definition verify_metadata (filename : string) : M (string * string) :=
  match exiftool_DocType filename with
  | inl e => raise e
  | inr stdout =>
      let file_type := Py.lower_strip unicode stdout in
      if decide (file_type = "matroska") then
        log WARNING ("'" +:+ filename
                     +:+ "' is MKV file type, not MP4. Queued for transcoding.");;
        mret ("Y", "queued")
      else
        log ERROR ("'" +:+ filename +:+ "' is '" +:+ file_type
                   +:+ "' type. Status is unknown.");;
        mret ("N", "unknown")
  end.

Definition read_metadata (path filename : string)
  : M (string * string * string) :=
  let video_file := path +:+ "/" +:+ filename in
  match exiftool_CompressorID video_file with
  | inl CalledProcessError =>
      log ERROR ("'" +:+ video_file
                 +:+ "' is not a not a video file. Verify file type.");;
      mret (filename, "N", "unknown")
  | inl e => raise e
  | inr stdout =>
      let compressor_metadata := Py.lower_strip unicode stdout in
      if decide (compressor_metadata = "hvc1") then
        log INFO ("'" +:+ video_file +:+ "' is already transcoded.");;
        mret (filename, "N", "skipped")
      else if decide (compressor_metadata = EmptyString) then
        log WARNING ("'" +:+ video_file
                     +:+ "' returned empty Compressor ID. Verifying video integrity.");;
        verified_status ← verify_metadata video_file;
        mret (filename, verified_status.1, verified_status.2)
      else
        log INFO ("'" +:+ video_file +:+ "' needs to be transcoded.");;
        mret (filename, "Y", "queued")
  end.

(** *** The scanner *)

(** [os.walk(scan_path)]: the directories under the mount point, each
    with the names of its files. *)
Variable os_walk : string → list (string * list string).

Definition is_video (filename : string) : bool :=
  Py.endswith filename ".mkv" || Py.endswith filename ".mp4".

(** The second loop of [scan_directory]. *)
Fixpoint check_metadata (video_list : list (string * string))
  : M (list Queue.row) :=
  match video_list with
  | [] => mret []
  | (path, filename) :: rest =>
      r ← (if Py.endswith filename ".mkv" then
             log INFO ("'" +:+ path +:+ "/" +:+ filename
                       +:+ "' needs to be transcoded.");;
             mret (Queue.Row path filename "Y" "queued")
           else
             '(filename, transcode, status) ← read_metadata path filename;
             mret (Queue.Row path filename transcode status));
      queue_list ← check_metadata rest;
      mret (r :: queue_list)
  end.

Definition scan_directory : M unit :=
  let scan_path := "/mnt" in
  log INFO "Beginning scan...";;
  let video_list :=
    '(root, files) ← os_walk scan_path;
    (λ filename, (root, filename)) <$> List.filter is_video files in
  for_each video_list
    (λ '(root, filename), log INFO ("Found '" +:+ root +:+ "/" +:+ filename +:+ "'."));;
  log INFO ("Scan complete. Found " +:+ pretty (length video_list)
            +:+ " video file(s).");;
  if decide (length video_list = 0%nat) then
    log WARNING "Empty scan results. Is the volume mounted? Exiting.";;
    sys_exit 1
  else
    log DEBUG "Checking metadata on video files.";;
    queue_list ← check_metadata video_list;
    insert_scan_results queue_list.

End Classifier.

(** *** Batch selection and the orchestrator *)

Section Run.
Variable unicode : Py.unicode.
(** [BATCH = os.getenv("BATCH", "0")] and
    [DELETE = bool(os.environ["DELETE"].lower() == "true")]. *)
Variable BATCH : string.
Variable DELETE : bool.
Variable ffmpeg : engine.

Definition get_batch : M (list (string * string)) :=
  limit ←
    match Py.int unicode BATCH with
    | None =>
        log ERROR ("BATCH is not an integer. BATCH=" +:+ Py.repr unicode BATCH +:+ ".");;
        log INFO "Setting batch to unlimited.";;
        mret None
    | Some batch =>
        if batch =? 0 then
          log INFO "Batch is 0; unlimited.";;
          mret None
        else if 0 <? batch then
          log INFO ("Setting batch limit to " +:+ pretty batch +:+ ".");;
          mret (Some batch)
        else if batch <? 0 then
          log WARNING ("batch=" +:+ pretty batch
                       +:+ ". BATCH variable must be a positive number.");;
          log INFO ("Batch is '" +:+ pretty batch +:+ "'. Setting to unlimited.");;
          mret None
        else mret None
    end;
  (* [if limit:] is false for [None] and for zero *)
  let limit_clause :=
    match limit with
    | Some n => if n =? 0 then None else Some n
    | None => None
    end in
  batch_result ← Db.select is_queued limit_clause;
  match batch_result with
  | None =>
      log ERROR "SQLite transcode selection query failed.";;
      log_exception_sqlite;;
      sys_exit 1
  | Some batch_queue =>
      log INFO "Successfully retrieved batch of files to transcode.";;
      mret batch_queue
  end.

Fixpoint transcode_queue (queue_list : list (string * string)) : M unit :=
  match queue_list with
  | [] => mret ()
  | entry :: rest =>
      let path := entry.1 in
      let filename := entry.2 in
      let video_file := Transcode.init path filename in
      transcode_video ← Transcode.transcode ffmpeg video_file;
      (if bool_decide (transcode_video = "done") && DELETE
       then Transcode.delete_original video_file
       else mret ());;
      transcode_queue rest
  end.

End Run.

(** *** The metadata update *)

Section Metadata.
(** [subprocess.run] of [exiftool -overwrite_original -title=...
    -comment= file]: the exception raised, if any ([CalledProcessError]
    when the tool exits with a non-zero code, [UnicodeDecodeError] when
    its output is not text, [FileNotFoundError] when the tool is missing),
    and the file system it leaves. *)
Variable exiftool_update
  : string → string → gmap string N → option exn * gmap string N.

Definition run_exiftool_update (title file : string) : M (option exn) := λ w,
  let '(raised, fs) := exiftool_update title file (files w) in
  (Ret raised, set_files fs w).

(** The body of the loop of [update_metadata]. *)
Definition update_metadata_file (file : string * string) : M unit :=
  let path := file.1 in
  let filename := file.2 in
  let video_file := path +:+ "/" +:+ filename in
  if Py.endswith filename ".mp4" then
    let video_title := Py.removesuffix filename ".mp4" in
    raised ← run_exiftool_update video_title video_file;
    match raised with
    | None => log INFO ("Updated metadata for '" +:+ video_file +:+ "'.")
    | Some CalledProcessError =>
        log ERROR ("Invalid MP4 file type for '" +:+ video_file
                   +:+ "'. Transcode to update the metadata.")
    | Some e => raise e
    end
  else
    log WARNING ("'" +:+ video_file
                 +:+ "' is not MP4. Transcode to update the metadata.").

Definition update_metadata : M unit :=
  metadata_result ← Db.select_keys;
  match metadata_result with
  | None =>
      log ERROR "SQLite metadata query failed.";;
      log_exception_sqlite;;
      sys_exit 1
  | Some metadata_queue =>
      log DEBUG "Successfully retrieved list of files to update metadata.";;
      for_each metadata_queue update_metadata_file
  end.

End Metadata.

(** *** The database check *)

(** [SELECT COUNT( * ) FROM queue]; [None] is [sqlite3.Error]. *)
Definition select_count : M (option nat) := λ w,
  if db_ok w then (Ret (Some (length (queue w))), w) else (Ret None, w).

Section Database.
(** [config.schema_file] and [config.persist_db]: the module [config] is
    not part of the sources. *)
Variable schema_file : string.
Variable persist_db : string.
(** [cursor.executescript(create_table)]: what the schema script, whose
    text is not part of the sources, does. *)
Variable executescript : M unit.

(** [Path(schema_file).open] raises [FileNotFoundError] when the file is
    missing. *)
Definition setup_database : M Z :=
  present ← Path.exists_ schema_file;
  if present : bool then
    executescript;;
    log DEBUG "SQLite database is ready.";;
    mret 0
  else
    log ERROR ("Schema file not found. Expected: '" +:+ schema_file +:+ "'.");;
    sys_exit 1.

(** [queue_count = result if int(result) else 0] *)
Definition verify_database : M nat :=
  setup_database;;
  queue_result ← select_count;
  match queue_result with
  | None =>
      log ERROR ("SQLite database verification failed for '" +:+ persist_db +:+ "'.");;
      sys_exit 1
  | Some result => mret (if decide (result = 0%nat) then 0%nat else result)
  end.

End Database.

(** ** Vocabulary of the properties *)

Definition is_lifecycle (e : event) : bool :=
  match e with
  | DbUpdate _ _ _ | FFmpegExecute _ _ _ => true
  | _ => false
  end.
Definition lifecycle (l : list event) : list event := List.filter is_lifecycle l.

(** A computation is quiet when it touches neither the table nor the
    storage flag and adds no status update or engine run to the trace. *)
Definition quiet {A} (m : M A) : Prop :=
  ∀ w r w', m w = (r, w') →
    queue w' = queue w ∧ db_ok w' = db_ok w
    ∧ lifecycle (events w') = lifecycle (events w).




(** The claimed output name of an [.mkv] source: the input path with its
    extension, and nothing else, replaced. *)
Definition replace_extension (input old new : string) : string :=
  Py.removesuffix input old +:+ new.

(** Probes for one file whose compressor tag is empty and whose
    document-type probe exits with an error. *)
Definition empty_tag (file : string) : exn + string := inr EmptyString.
Definition probe_error (file : string) : exn + string := inl CalledProcessError.

(** An empty table on a healthy storage, with no files. *)
Definition empty_world : World := mkWorld [] ∅ true [].

Definition row_a : Queue.row := Queue.Row "/mnt" "a.mkv" "Y" "queued".
Definition row_b : Queue.row := Queue.Row "/mnt" "b.mkv" "Y" "queued".

(** *** Reachable states *)

(** What the scanner inserts: a video file name, and a row that is not
    to be transcoded is skipped or unknown. *)
Definition row_ok (r : Queue.row) : Prop :=
  is_video (Queue.filename r) = true
  ∧ (Queue.transcode r = "Y"
     ∨ Queue.transcode r = "N"
       ∧ (Queue.status r = "skipped" ∨ Queue.status r = "unknown")).

Definition table_ok (tbl : list Queue.row) : Prop :=
  NoDup (Queue.key <$> tbl) ∧ Forall row_ok tbl.

(** One operation of the core, under any environment.  [update_status]
    is called by [Transcode.transcode] only, and [transcode_queue] runs on
    what [get_batch] or [retry_failed] selected; between operations the
    files and the health of the storage may change. *)
Inductive step : World → World → Prop :=
  | step_scan w unicode exiftool_CompressorID exiftool_DocType os_walk :
      step w (scan_directory unicode exiftool_CompressorID exiftool_DocType os_walk w).2
  | step_batch w unicode BATCH DELETE ffmpeg queue_list w1 :
      get_batch unicode BATCH w = (Ret queue_list, w1) →
      step w (transcode_queue DELETE ffmpeg queue_list w1).2
  | step_retry w DELETE ffmpeg queue_list w1 :
      retry_failed w = (Ret queue_list, w1) →
      step w (transcode_queue DELETE ffmpeg queue_list w1).2
  | step_report w :
      step w (final_results w).2
  | step_environment w fs ok :
      step w (mkWorld (queue w) fs ok (events w)).

(** The states a run can be in, from an empty table. *)
Inductive reachable : World → Prop :=
  | reachable_empty w : queue w = [] → reachable w
  | reachable_step w w' : reachable w → step w w' → reachable w'.

(** [r'] is [r] with, at most, another status, and that only for a key
    in [K]. *)
Definition status_changed_on (K : string * string → Prop) (r r' : Queue.row) : Prop :=
  Queue.path r' = Queue.path r ∧ Queue.filename r' = Queue.filename r
  ∧ Queue.transcode r' = Queue.transcode r
  ∧ (Queue.status r' = Queue.status r ∨ K (Queue.key r)).

(** A computation touches [K] when all it does to the table is to change
    the status of rows with a key in [K]. *)
Definition touches {A} (K : string * string → Prop) (m : M A) : Prop :=
  ∀ w r w', m w = (r, w') → Forall2 (status_changed_on K) (queue w) (queue w').

(** The value a computation returns satisfies [P]. *)
Definition returns {A} (P : A → Prop) (m : M A) : Prop :=
  ∀ w a w', m w = (Ret a, w') → P a.

(** A computation keeps the table well-formed. *)
Definition keeps_table_ok {A} (m : M A) : Prop :=
  ∀ w r w', m w = (r, w') → table_ok (queue w) → table_ok (queue w').

(** The classifications the code hands out. *)
Definition verdict_ok (v : string * string) : Prop :=
  v.1 = "Y" ∨ v.1 = "N" ∧ (v.2 = "skipped" ∨ v.2 = "unknown").

(** *** Concrete runs *)

(** The text of the concrete runs is ASCII: their interpreter is not
    asked about any other. *)
Definition demo_unicode : Py.unicode := Py.Unicode (λ _, None) (λ s, s) (λ s, s).

(** A table with one row of each kind, the two source files on disk. *)
Definition demo_world : World :=
  mkWorld
    [ Queue.Row "/mnt" "movie.mkv" "Y" "queued";
      Queue.Row "/mnt" "clip.mp4" "N" "skipped";
      Queue.Row "/mnt" "old.mp4" "Y" "failed";
      Queue.Row "/mnt" "busy.mkv" "Y" "active" ]
    {[ "/mnt/movie.mkv" := 100%N; "/mnt/clip.mp4" := 50%N ]}
    true [].

(** An engine that writes a 40-byte output and succeeds, and one that
    leaves 7 bytes of output and fails. *)
Definition ffmpeg_ok : engine :=
  λ input output title fs, (Completed, <[output := 40%N]> fs).
Definition ffmpeg_fails : engine :=
  λ input output title fs, (FFmpegError, <[output := 7%N]> fs).

(** A mount point with one directory of three files; every probe answers
    with the tag of the target codec. *)
Definition demo_walk (scan_path : string) : list (string * list string) :=
  [("/mnt", ["movie.mkv"; "clip.mp4"; "notes.txt"])].
Definition demo_probe (file : string) : exn + string := inr "hvc1".
Definition scanned_world : World :=
  (scan_directory demo_unicode demo_probe demo_probe demo_walk empty_world).2.

(** *** Properties of the other operations *)

(** A computation that leaves the table, the files and the health of the
    storage as they are, however it ends. *)
Definition read_only {A} (m : M A) : Prop :=
  ∀ w, queue (m w).2 = queue w ∧ files (m w).2 = files w ∧ db_ok (m w).2 = db_ok w.

(** A computation that takes nothing out of the log. *)
Definition extends_log {A} (m : M A) : Prop :=
  ∀ w r w', m w = (r, w') → events w `prefix_of` events w'.

(** A computation whose outcome does not depend on the state. *)
Definition pure_result {A} (m : M A) : Prop := ∀ w w0, (m w).1 = (m w0).1.

(** The table a batch insert leaves on a working storage: what
    [executemany] made of it, or the table as it was when a parameter
    could not be bound and the exception left the block. *)
Definition inserted (rows tbl : list Queue.row) : list Queue.row :=
  match Queue.executemany_insert rows tbl with
  | (_, Queue.Unencodable) => tbl
  | (tbl', _) => tbl'
  end.

(** The video files of a walk, in the order of the walk: the
    [video_list] of [scan_directory]. *)
Definition found_videos (walk : list (string * list string)) : list (string * string) :=
  '(root, files) ← walk;
  (λ filename, (root, filename)) <$> List.filter is_video files.

(** [r'] is a row about the same file as [r]. *)
Definition same_file (r r' : Queue.row) : Prop :=
  Queue.path r' = Queue.path r ∧ Queue.filename r' = Queue.filename r
  ∧ Queue.transcode r' = Queue.transcode r.

(** [tbl'] is [tbl], each row about the same file, followed by new rows. *)
Definition grows (tbl tbl' : list Queue.row) : Prop :=
  ∃ kept added, tbl' = kept ++ added ∧ Forall2 same_file tbl kept.

(** *** More concrete runs *)

(** The table and files of [demo_world] on a storage that fails. *)
Definition broken_world : World :=
  mkWorld (queue demo_world) (files demo_world) false [].


(** A mount point without video files, and one with an [.mkv] file only. *)
Definition txt_walk (scan_path : string) : list (string * list string) :=
  [("/mnt", ["notes.txt"; "cover.jpg"])].
Definition mkv_walk (scan_path : string) : list (string * list string) :=
  [("/mnt", ["movie.mkv"; "notes.txt"])].

(** A metadata tool that succeeds on the files that exist and rewrites
    the file it is given. *)
Definition demo_exiftool (title file : string) (fs : gmap string N)
  : option exn * gmap string N :=
  (match fs !! file with Some _ => None | None => Some CalledProcessError end,
   alter N.succ file fs).

(** A table of two rows beside the schema file, and a schema script that
    finds the table in place. *)
Definition demo_schema : string := "/app/schema.sql".
Definition schema_world : World :=
  mkWorld [row_a; row_b] {[ "/app/schema.sql" := 120%N ]} true [].
Definition demo_executescript : M unit := mret ().


(** A row whose file name has the byte 0xE9 (a Latin-1 e with acute
    accent) on its own, which is not UTF-8. *)
Definition row_latin1 : Queue.row :=
  Queue.Row "/mnt" (String "233" "t" +:+ String "233" ".mkv") "Y" "queued".

(** * Properties *)

Section Properties.
(** Whatever the interpreter's Unicode database says. *)
Context {unicode : Py.unicode}.

(** ** The string methods on concrete inputs *)

Example replace_ext : Py.replace "/mnt/a/movie.mkv" ".mkv" ".mp4" = "/mnt/a/movie.mp4".
Proof. reflexivity. Qed.
Example replace_all : Py.replace "a.mp4.mp4" ".mp4" ".h265" = "a.h265.h265".
Proof. reflexivity. Qed.
Example replace_sep : Py.replace "abc" EmptyString "-" = "-a-b-c-".
Proof. reflexivity. Qed.
Example removesuffix_ext : Py.removesuffix "clip.mp4" ".mp4" = "clip".
Proof. reflexivity. Qed.
Example strip_lower : Py.lower_strip unicode " HVC1
" = "hvc1".
Proof. reflexivity. Qed.
Example int_ok : Py.int unicode " -5 " = Some (-5) /\ Py.int unicode "1_000" = Some 1000
  /\ Py.int unicode "007" = Some 7 /\ Py.int unicode "+3" = Some 3.
Proof. repeat split; vm_compute; reflexivity. Qed.
Example int_bad : Py.int unicode "abc" = None /\ Py.int unicode EmptyString = None /\ Py.int unicode "1__0" = None
  /\ Py.int unicode "3.5" = None /\ Py.int unicode "- 1" = None /\ Py.int unicode "_1" = None /\ Py.int unicode "1_" = None.
Proof. repeat split; vm_compute; reflexivity. Qed.
Example repr_quotes : Py.repr unicode "abc" = "'abc'" /\ Py.repr unicode "it's" = String (ascii_of_nat 34) ("it's" +:+ String (ascii_of_nat 34) EmptyString).
Proof. split; reflexivity. Qed.
Example thousands : Py.format_thousands 1234567 = "1,234,567"
  /\ Py.format_thousands (-1000) = "-1,000" /\ Py.format_thousands 999 = "999".
Proof. repeat split; vm_compute; reflexivity. Qed.

(** ** Facts about the string methods *)

Lemma append_cons c s t : String c s +:+ t = String c (s +:+ t).
Proof. reflexivity. Qed.

Lemma append_empty t : EmptyString +:+ t = t.
Proof. reflexivity. Qed.

Lemma startswith_refl s : Py.startswith s s = true.
Proof.
  induction s as [|c s IH]; simpl; [done|].
  by rewrite Ascii.eqb_refl, IH.
Qed.

Lemma startswith_drop s pre :
  Py.startswith s pre = true → s = pre +:+ Py.drop (String.length pre) s.
Proof.
  revert s. induction pre as [|a pre IH]; intros s H; simpl in *; [done|].
  destruct s as [|b s]; [done|].
  apply andb_true_iff in H as [Hab H].
  apply Ascii.eqb_eq in Hab as ->. rewrite append_cons. f_equal. by apply IH.
Qed.

Lemma endswith_app s suf :
  Py.endswith s suf = true ↔ ∃ u, s = u +:+ suf.
Proof.
  split.
  - induction s as [|c s IH]; cbn [Py.endswith]; intros H.
    + rewrite orb_false_r in H. apply String.eqb_eq in H as <-. by exists EmptyString.
    + apply orb_true_iff in H as [H|H].
      * apply String.eqb_eq in H as <-. by exists EmptyString.
      * destruct (IH H) as [u ->]. by exists (String c u).
  - intros [u ->]. induction u as [|c u IH].
    + rewrite append_empty. destruct suf; cbn [Py.endswith]; by rewrite String.eqb_refl.
    + rewrite append_cons. cbn [Py.endswith]. rewrite IH. apply orb_true_r.
Qed.

Lemma endswith_prepend u s suf :
  Py.endswith s suf = true → Py.endswith (u +:+ s) suf = true.
Proof.
  rewrite !endswith_app. intros [v ->]. exists (u +:+ v).
  induction u as [|c u IH]; [done|]. by rewrite !append_cons, IH.
Qed.

Lemma endswith_mp4_not_mkv s :
  Py.endswith s ".mp4" = true → Py.endswith s ".mkv" = false.
Proof.
  induction s as [|c s IH]; [done|].
  cbn [Py.endswith]. intros H. apply orb_true_iff in H as [H|H].
  - apply String.eqb_eq in H. injection H as -> ->. reflexivity.
  - rewrite (IH H), orb_false_r. apply String.eqb_neq. intros Heq.
    injection Heq as -> ->. discriminate H.
Qed.

(** A replacement really happens, and where it happens the result differs
    from the original, as soon as [new] and [old] cannot begin the same
    string. *)
Lemma replace_scan_changes old new :
  old ≠ EmptyString →
  (∀ x y, new +:+ x ≠ old +:+ y) →
  ∀ fuel s, (String.length s ≤ fuel)%nat →
    Py.endswith s old = true → Py.replace_scan fuel old new s ≠ s.
Proof.
  intros Hold Hdiff fuel. induction fuel as [|fuel IH]; intros s Hlen Hend.
  - destruct s; [|simpl in Hlen; lia].
    cbn [Py.endswith] in Hend. rewrite orb_false_r in Hend.
    apply String.eqb_eq in Hend. congruence.
  - destruct s as [|c s].
    { cbn [Py.endswith] in Hend. rewrite orb_false_r in Hend.
      apply String.eqb_eq in Hend. congruence. }
    cbn [Py.replace_scan]. destruct (Py.startswith (String c s) old) eqn:Hpre.
    + rewrite (startswith_drop _ _ Hpre) at 2. apply Hdiff.
    + cbn [Py.endswith] in Hend. apply orb_true_iff in Hend as [Heq|Hend].
      * apply String.eqb_eq in Heq as <-. by rewrite startswith_refl in Hpre.
      * intros [= Heq]. revert Heq. apply IH; [simpl in Hlen; lia | done].
Qed.

Lemma replace_changes s old new :
  old ≠ EmptyString →
  (∀ x y, new +:+ x ≠ old +:+ y) →
  Py.endswith s old = true → Py.replace s old new ≠ s.
Proof.
  intros Hold Hdiff Hend. unfold Py.replace.
  destruct old as [|a old]; [done|].
  by apply replace_scan_changes.
Qed.

(** ** The per-file run *)

Lemma init_video p f :
  is_video f = true →
  ∃ out title,
    Transcode.init p f
      = Transcode.Build p f (p +:+ "/" +:+ f) (Some out) (Some title)
    ∧ out ≠ p +:+ "/" +:+ f.
Proof.
  unfold is_video, Transcode.init. intros Hv.
  destruct (Py.endswith f ".mkv") eqn:Hmkv.
  - eexists _, _. split; [reflexivity|].
    apply replace_changes; [done| |].
    + intros x y [=].
    + by do 2 apply endswith_prepend.
  - simpl in Hv. rewrite Hv. eexists _, _. split; [reflexivity|].
    apply replace_changes; [done| |].
    + intros x y [=].
    + by do 2 apply endswith_prepend.
Qed.

Lemma update_status_ok p f st w :
  db_ok w = true →
  update_status p f st w =
    (Ret (), add_event (Log INFO ("Updated status for '" +:+ p +:+ "/" +:+ f
                                   +:+ "' to '" +:+ st +:+ "'."))
               (add_event (DbUpdate p f st)
                  (set_queue (Queue.update st p f (queue w)) w))).
Proof.
  intros Hdb. unfold update_status, mbind, M_bind, bind, Db.update.
  by rewrite Hdb.
Qed.

Lemma update_update st1 st2 p f tbl :
  Queue.update st2 p f (Queue.update st1 p f tbl) = Queue.update st2 p f tbl.
Proof.
  unfold Queue.update. rewrite <- list_fmap_compose. apply list_fmap_ext.
  intros _ r _. simpl. destruct (decide (Queue.key r = (p, f))) as [H|H].
  - unfold Queue.key in *. simpl. by rewrite decide_True.
  - by rewrite decide_False.
Qed.

Lemma update_status_of st p f tbl r :
  r ∈ Queue.update st p f tbl → Queue.key r = (p, f) → Queue.status r = st.
Proof.
  unfold Queue.update. intros (r0 & -> & _)%list_elem_of_fmap.
  destruct (decide (Queue.key r0 = (p, f))); [done|]. intros; done.
Qed.


Lemma quiet_ret {A} (a : A) : quiet (mret a).
Proof. by intros w r w' [= <- <-]. Qed.

Lemma quiet_raise {A} e : quiet (@raise A e).
Proof. by intros w r w' [= <- <-]. Qed.

Lemma quiet_bind {A B} (m : M A) (k : A → M B) :
  quiet m → (∀ a, quiet (k a)) → quiet (m ≫= k).
Proof.
  intros Hm Hk w r w'. unfold mbind, M_bind, bind.
  destruct (m w) as [[a|e|c] w1] eqn:Hmw; destruct (Hm _ _ _ Hmw) as (?&?&?).
  - intros Hkw. destruct (Hk _ _ _ _ Hkw) as (?&?&?). repeat split; congruence.
  - by intros [= <- <-].
  - by intros [= <- <-].
Qed.

Lemma lifecycle_snoc l e :
  lifecycle (l ++ [e]) = lifecycle l ++ (if is_lifecycle e then [e] else []).
Proof. unfold lifecycle. by rewrite List.filter_app. Qed.

Lemma quiet_log lvl msg : quiet (log lvl msg).
Proof.
  intros w r w' [= <- <-]. simpl. rewrite lifecycle_snoc. simpl.
  by rewrite app_nil_r.
Qed.

Lemma quiet_exists p : quiet (Path.exists_ p).
Proof. by intros w r w' [= <- <-]. Qed.

Lemma quiet_stat_size p : quiet (Path.stat_size p).
Proof.
  intros w r w'. unfold Path.stat_size.
  by destruct (files w !! p); intros [= <- <-].
Qed.

Lemma quiet_unlink p : quiet (Path.unlink p).
Proof.
  intros w r w'. unfold Path.unlink.
  destruct (files w !! p); intros [= <- <-]; [|done].
  simpl. rewrite lifecycle_snoc. simpl. by rewrite app_nil_r.
Qed.

Lemma quiet_replace src dst : quiet (Path.replace src dst).
Proof.
  intros w r w'. unfold Path.replace.
  destruct (files w !! src); intros [= <- <-]; [|done].
  simpl. rewrite lifecycle_snoc. simpl. by rewrite app_nil_r.
Qed.

Lemma quiet_get_file_size p : quiet (get_file_size p).
Proof.
  unfold get_file_size. apply quiet_bind; [apply quiet_stat_size|].
  intros size. apply quiet_bind; [|intros; apply quiet_ret].
  repeat case_match; apply quiet_log.
Qed.

Create HintDb quiet.
#[local] Hint Resolve quiet_ret quiet_raise quiet_log quiet_exists
  quiet_stat_size quiet_unlink quiet_replace quiet_get_file_size : quiet.

Ltac quiet := repeat first
  [ apply quiet_bind; [|intros ?] | progress eauto with quiet | case_match ].

Lemma run_bind {A B} (m : M A) (k : A → M B) w a w1 :
  m w = (Ret a, w1) → (m ≫= k) w = k a w1.
Proof. unfold mbind, M_bind, bind. by intros ->. Qed.

Lemma execute_run (ffmpeg : engine) input output title w r fs :
  ffmpeg input output title (files w) = (r, fs) →
  Transcode.execute ffmpeg input output title w
  = (Ret r, set_files fs (add_event (FFmpegExecute input output title) w)).
Proof. unfold Transcode.execute. by intros ->. Qed.

Lemma init_fields p f :
  Transcode.path (Transcode.init p f) = p
  ∧ Transcode.filename (Transcode.init p f) = f
  ∧ Transcode.input_file (Transcode.init p f) = p +:+ "/" +:+ f.
Proof. unfold Transcode.init. by repeat case_match. Qed.

Lemma run_finally {A} (body : M A) (fin : M unit) w r w1 w2 :
  body w = (r, w1) → fin w1 = (Ret (), w2) → try_finally body fin w = (r, w2).
Proof. unfold try_finally. by intros -> ->. Qed.

Lemma run_exists p w :
  Path.exists_ p w = (Ret (bool_decide (is_Some (files w !! p))), w).
Proof. reflexivity. Qed.

Lemma run_unlink p w size :
  files w !! p = Some size →
  Path.unlink p w = (Ret (), add_event (Unlink p) (set_files (delete p (files w)) w)).
Proof. unfold Path.unlink. by intros ->. Qed.

(** *** What a per-file run does to the files *)

Lemma update_status_files p f st w :
  ∃ w', update_status p f st w = (Ret (), w') ∧ files w' = files w.
Proof.
  unfold update_status, mbind, M_bind, bind, Db.update.
  destruct (db_ok w); eexists; (split; [reflexivity|done]).
Qed.

Lemma get_file_size_run p w :
  match files w !! p with
  | Some size => ∃ w', get_file_size p w = (Ret size, w') ∧ files w' = files w
  | None => get_file_size p w = (Raise (FileNotFoundError p), w)
  end.
Proof.
  unfold get_file_size, mbind, M_bind, bind, Path.stat_size, log, emit.
  destruct (files w !! p) as [size|]; [|done].
  destruct (1073741824 <=? size)%N; [|destruct (1048576 <=? size)%N];
    eexists; (split; [reflexivity|done]).
Qed.

Lemma run_bind_raise {A B} (m : M A) (k : A → M B) w e w1 :
  m w = (Raise e, w1) → (m ≫= k) w = (Raise e, w1).
Proof. unfold mbind, M_bind, bind. by intros ->. Qed.

Lemma init_output p f out :
  Transcode.output_file (Transcode.init p f) = Some out →
  out ≠ p +:+ "/" +:+ f
  ∧ (Py.endswith f ".mkv" = true ∧ Py.endswith (p +:+ "/" +:+ f) ".mkv" = true
     ∨ Py.endswith f ".mp4" = true ∧ Py.endswith (p +:+ "/" +:+ f) ".mkv" = false
       ∧ Py.endswith (p +:+ "/" +:+ f) ".mp4" = true).
Proof.
  unfold Transcode.init.
  destruct (Py.endswith f ".mkv") eqn:Hmkv; [|destruct (Py.endswith f ".mp4") eqn:Hmp4];
    cbn [Transcode.output_file]; intros [= <-].
  - assert (Py.endswith (p +:+ "/" +:+ f) ".mkv" = true) by (by do 2 apply endswith_prepend).
    split; [|by left].
    apply (replace_changes (p +:+ "/" +:+ f) ".mkv" ".mp4"); [done| |done].
    intros x y [=].
  - assert (Py.endswith (p +:+ "/" +:+ f) ".mp4" = true) by (by do 2 apply endswith_prepend).
    split; [|right; auto using endswith_mp4_not_mkv].
    apply (replace_changes (p +:+ "/" +:+ f) ".mp4" ".h265"); [done| |done].
    intros x y [=].
Qed.


Lemma update_keeps_other_rows st p f tbl :
  Forall2 (λ r r',
      Queue.path r' = Queue.path r ∧ Queue.filename r' = Queue.filename r
      ∧ Queue.transcode r' = Queue.transcode r
      ∧ (Queue.key r = (p, f) → Queue.status r' = st)
      ∧ (Queue.key r ≠ (p, f) → r' = r))
    tbl (Queue.update st p f tbl).
Proof.
  unfold Queue.update. apply Forall2_fmap_r, Forall_Forall2_diag, Forall_forall.
  intros r _. unfold compose.
  destruct (decide (Queue.key r = (p, f))) as [Hk|Hk]; simpl; by repeat split.
Qed.

(** [update_status] in either state of the storage. *)
Lemma update_status_run p f st w :
  ∃ w',
    update_status p f st w = (Ret (), w')
    ∧ files w' = files w ∧ db_ok w' = db_ok w
    ∧ queue w' = (if db_ok w then Queue.update st p f (queue w) else queue w)
    ∧ lifecycle (events w')
      = lifecycle (events w) ++ (if db_ok w then [DbUpdate p f st] else []).
Proof.
  unfold update_status, mbind, M_bind, bind, Db.update, log, emit, log_exception_sqlite.
  destruct (db_ok w) eqn:Hdb; eexists; (split; [reflexivity|]);
    cbn [files queue db_ok events add_event set_queue];
    rewrite ?Hdb, !lifecycle_snoc; simpl; by rewrite ?app_nil_r.
Qed.

(** The [try] statement of [Transcode.transcode] after the engine has
    run: its handlers touch neither the table nor the trace of status
    updates, and its [finally] clause updates the status when one is
    bound. *)
Lemma transcode_table (ffmpeg : engine) p f out title r fs w outcome w' :
  Transcode.output_file (Transcode.init p f) = Some out →
  Transcode.video_title (Transcode.init p f) = Some title →
  ffmpeg (p +:+ "/" +:+ f) out title (files w) = (r, fs) →
  Transcode.transcode ffmpeg (Transcode.init p f) w = (outcome, w') →
  db_ok w' = db_ok w
  ∧ queue w'
    = (if db_ok w
       then Queue.update
              match r with
              | Completed => "done" | FFmpegError => "failed" | OtherError _ => "active"
              end p f (queue w)
       else queue w)
  ∧ lifecycle (events w')
    = lifecycle (events w)
      ++ (if db_ok w then [DbUpdate p f "active"] else [])
      ++ FFmpegExecute (p +:+ "/" +:+ f) out title
         :: (if db_ok w
             then match r with
                  | Completed => [DbUpdate p f "done"]
                  | FFmpegError => [DbUpdate p f "failed"]
                  | OtherError _ => []
                  end
             else []).
Proof.
  intros Hout Htitle Heng.
  destruct (init_fields p f) as (Hp & Hf & Hin).
  unfold Transcode.transcode. rewrite Hp, Hf, Hin, Hout, Htitle.
  destruct (update_status_run p f "active" w) as (wa & Hact & Hfa & Hda & Hqa & Hea).
  erewrite run_bind by exact Hact.
  do 3 (erewrite run_bind by reflexivity).
  erewrite run_bind
    by (apply execute_run; cbn [files add_event]; rewrite Hfa; exact Heng).
  match goal with |- context [try_finally ?b _] => set (body := b) end.
  assert (Hq : quiet body) by (subst body; destruct r; quiet).
  unfold mbind at 1. unfold M_bind, bind, try_finally.
  match goal with |- context [body ?w0] =>
    destruct (body w0) as [rb w1] eqn:Hbody end.
  apply Hq in Hbody as (Hq1 & Hq2 & Hq3).
  cbn [queue db_ok events set_files add_event] in Hq1, Hq2, Hq3.
  rewrite !lifecycle_snoc in Hq3. cbn [is_lifecycle] in Hq3.
  rewrite app_nil_r in Hq3.
  destruct r as [| |e].
  - destruct (update_status_run p f "done" w1) as (wd & Hd & Hfd & Hdd & Hqd & Hed).
    erewrite run_bind by reflexivity. rewrite Hd.
    rewrite Hq2, Hda in Hqd, Hed. rewrite Hq1, Hqa in Hqd. rewrite Hq3, Hea in Hed.
    assert (db_ok wd = db_ok w) by congruence.
    assert (queue wd = if db_ok w then Queue.update "done" p f (queue w) else queue w)
      by (rewrite Hqd; destruct (db_ok w); [apply update_update|done]).
    assert (lifecycle (events wd)
            = lifecycle (events w) ++ (if db_ok w then [DbUpdate p f "active"] else [])
              ++ FFmpegExecute (p +:+ "/" +:+ f) out title
                 :: (if db_ok w then [DbUpdate p f "done"] else []))
      by (rewrite Hed, <- !app_assoc; done).
    destruct rb; intros [= <- <-]; done.
  - destruct (update_status_run p f "failed" w1) as (wd & Hd & Hfd & Hdd & Hqd & Hed).
    erewrite run_bind by reflexivity. rewrite Hd.
    rewrite Hq2, Hda in Hqd, Hed. rewrite Hq1, Hqa in Hqd. rewrite Hq3, Hea in Hed.
    assert (db_ok wd = db_ok w) by congruence.
    assert (queue wd = if db_ok w then Queue.update "failed" p f (queue w) else queue w)
      by (rewrite Hqd; destruct (db_ok w); [apply update_update|done]).
    assert (lifecycle (events wd)
            = lifecycle (events w) ++ (if db_ok w then [DbUpdate p f "active"] else [])
              ++ FFmpegExecute (p +:+ "/" +:+ f) out title
                 :: (if db_ok w then [DbUpdate p f "failed"] else []))
      by (rewrite Hed, <- !app_assoc; done).
    destruct rb; intros [= <- <-]; done.
  - cbn [getlocal]. unfold mbind, M_bind, bind, raise.
    intros [= <- <-]. rewrite Hq1, Hq2, Hq3, Hqa, Hda, Hea.
    split; [done|]. split; [done|]. rewrite <- !app_assoc.
    by destruct (db_ok w).
Qed.

Lemma update_status_events p f st w r w' e :
  update_status p f st w = (r, w') → e ∈ events w → e ∈ events w'.
Proof.
  unfold update_status, mbind, M_bind, bind, Db.update, log, emit, log_exception_sqlite.
  destruct (db_ok w); intros [= <- <-] He; cbn [events add_event set_queue];
    rewrite !elem_of_app; auto.
Qed.

Lemma extends_log_ret {A} (a : A) : extends_log (mret a).
Proof. by intros w r w' [= <- <-]. Qed.
Lemma extends_log_raise {A} e : extends_log (@raise A e).
Proof. by intros w r w' [= <- <-]. Qed.
Lemma extends_log_emit e : extends_log (emit e).
Proof. intros w r w' [= <- <-]. by apply prefix_app_r. Qed.
Lemma extends_log_bind {A B} (m : M A) (k : A → M B) :
  extends_log m → (∀ a, extends_log (k a)) → extends_log (m ≫= k).
Proof.
  intros Hm Hk w r w'. unfold mbind, M_bind, bind.
  destruct (m w) as [[a|e|c] w1] eqn:Hmw; pose proof (Hm _ _ _ Hmw).
  - intros Hkw. etrans; [done|]. by eapply Hk.
  - by intros [= <- <-].
  - by intros [= <- <-].
Qed.
Lemma extends_log_finally {A} (body : M A) (fin : M unit) :
  extends_log body → extends_log fin → extends_log (try_finally body fin).
Proof.
  intros Hb Hf w r w'. unfold try_finally.
  destruct (body w) as [rb w1] eqn:Hbody. pose proof (Hb _ _ _ Hbody).
  destruct (fin w1) as [[[]|e|c] w2] eqn:Hfin; pose proof (Hf _ _ _ Hfin);
    intros [= <- <-]; by etrans.
Qed.
Lemma extends_log_update_status p f st : extends_log (update_status p f st).
Proof.
  intros w r w'.
  unfold update_status, mbind, M_bind, bind, Db.update, log, emit, log_exception_sqlite.
  destruct (db_ok w); intros [= <- <-]; cbn [events add_event set_queue];
    rewrite <- ?app_assoc; by apply prefix_app_r.
Qed.
Lemma extends_log_get_file_size file : extends_log (get_file_size file).
Proof.
  intros w r w'. unfold get_file_size, mbind, M_bind, bind, Path.stat_size, log, emit.
  destruct (files w !! file); [|by intros [= <- <-]].
  destruct (1073741824 <=? _)%N; [|destruct (1048576 <=? _)%N];
    intros [= <- <-]; by apply prefix_app_r.
Qed.
Lemma extends_log_unlink file : extends_log (Path.unlink file).
Proof.
  intros w r w'. unfold Path.unlink.
  destruct (files w !! file); intros [= <- <-]; [by apply prefix_app_r|done].
Qed.
Lemma extends_log_execute ffmpeg input output title :
  extends_log (Transcode.execute ffmpeg input output title).
Proof.
  intros w r w'. unfold Transcode.execute.
  destruct (ffmpeg _ _ _ _). intros [= <- <-]. by apply prefix_app_r.
Qed.

Lemma extends_log_transcode ffmpeg self : extends_log (Transcode.transcode ffmpeg self).
Proof.
  unfold Transcode.transcode, getattr, getlocal, log, Path.exists_, get.
  repeat first
    [ apply extends_log_update_status | apply extends_log_get_file_size
    | apply extends_log_unlink | apply extends_log_execute
    | apply extends_log_emit | apply extends_log_ret | apply extends_log_raise
    | apply extends_log_finally
    | apply extends_log_bind; [|intros ?]
    | by intros w r w' [= <- <-]
    | case_match ].
Qed.

(** On a storage that rejects the updates, the run logs the rejection. *)
Lemma transcode_logs_rejection ffmpeg self w outcome w' :
  db_ok w = false →
  Transcode.transcode ffmpeg self w = (outcome, w') →
  Log ERROR "SQLite transcode status update failed." ∈ events w'.
Proof.
  intros Hdb. unfold Transcode.transcode.
  destruct (update_status (Transcode.path self) (Transcode.filename self) "active" w)
    as [r1 w1] eqn:Hact.
  assert (Log ERROR "SQLite transcode status update failed." ∈ events w1 ∧ r1 = Ret ())
    as [Hlog ->].
  { revert Hact.
    unfold update_status, mbind, M_bind, bind, Db.update, log, emit, log_exception_sqlite.
    rewrite Hdb. intros [= <- <-]. split; [|done]. cbn [events add_event].
    rewrite !elem_of_app, !list_elem_of_singleton. auto. }
  erewrite run_bind by exact Hact.
  match goal with |- ?m w1 = _ → _ => assert (Hrest : extends_log m) end.
  { unfold getattr, getlocal, log, Path.exists_, get.
    repeat first
      [ apply extends_log_update_status | apply extends_log_get_file_size
      | apply extends_log_unlink | apply extends_log_execute
      | apply extends_log_emit | apply extends_log_ret | apply extends_log_raise
      | apply extends_log_finally
      | apply extends_log_bind; [|intros ?]
      | by intros w0 r w0' [= <- <-]
      | case_match ]. }
  intros Hrun. apply Hrest in Hrun as [l ->]. apply elem_of_app. by left.
Qed.

(** What a per-file run does to the files, and how it ends. *)
Lemma transcode_files (ffmpeg : engine) p f out title r fs w :
  Transcode.output_file (Transcode.init p f) = Some out →
  Transcode.video_title (Transcode.init p f) = Some title →
  ffmpeg (p +:+ "/" +:+ f) out title (files w) = (r, fs) →
  ∃ outcome w1,
    Transcode.transcode ffmpeg (Transcode.init p f) w = (outcome, w1)
    ∧ match r with
      | FFmpegError =>
          outcome = Ret "failed" ∧ files w1 = delete out fs
          ∧ (is_Some (fs !! out) → Unlink out ∈ events w1)
      | Completed =>
          files w1 = fs
          ∧ match fs !! (p +:+ "/" +:+ f), fs !! out with
            | Some _, Some _ => outcome = Ret "done"
            | _, _ => ∃ file, outcome = Raise (FileNotFoundError file)
            end
      | OtherError _ =>
          outcome = Raise (UnboundLocalError "transcode_status") ∧ files w1 = fs
      end.
Proof.
  intros Hout Htitle Heng.
  destruct (init_fields p f) as (Hp & Hf & Hin).
  unfold Transcode.transcode. rewrite Hp, Hf, Hin, Hout, Htitle.
  destruct (update_status_files p f "active" w) as (wa & Hact & Hfa).
  erewrite run_bind by exact Hact.
  do 3 (erewrite run_bind by reflexivity).
  erewrite run_bind by (apply execute_run; cbn [files add_event]; rewrite Hfa; exact Heng).
  destruct r as [| |e].
  - (* engine success *)
    set (w0 := set_files fs _).
    pose proof (get_file_size_run (p +:+ "/" +:+ f)
                  (add_event (Log INFO ("'" +:+ (p +:+ "/" +:+ f) +:+ "' transcoded successfully.")) w0)) as Hin_size.
    cbn [files add_event] in Hin_size. subst w0. cbn [files set_files] in Hin_size.
    destruct (fs !! (p +:+ "/" +:+ f)) as [isz|] eqn:Hfi.
    + destruct Hin_size as (wi & Hi & Hfi').
      pose proof (get_file_size_run out wi) as Hout_size. rewrite Hfi' in Hout_size.
      cbn [files set_files add_event] in Hout_size.
      destruct (fs !! out) as [osz|] eqn:Hfo.
      * destruct Hout_size as (wo & Ho & Hfo').
        destruct (update_status_files p f "done"
          (add_event (Log INFO ("Recovered " +:+ Py.format_thousands (Z.of_N isz - Z.of_N osz) +:+ " bytes in trandcoding.")) wo))
          as (wd & Hd & Hfd).
        eexists _, wd. split.
        { erewrite run_bind; [reflexivity|]. eapply run_finally.
          - erewrite run_bind by reflexivity.
            erewrite run_bind by exact Hi.
            erewrite run_bind by exact Ho. reflexivity.
          - erewrite run_bind by reflexivity. exact Hd. }
        split; [|done]. rewrite Hfd. cbn [files add_event]. by rewrite Hfo'.
      * destruct (update_status_files p f "done" wi) as (wd & Hd & Hfd).
        eexists _, wd. split.
        { erewrite run_bind_raise; [reflexivity|].
          eapply run_finally.
          - erewrite run_bind by reflexivity.
            erewrite run_bind by exact Hi.
            apply run_bind_raise. exact Hout_size.
          - erewrite run_bind by reflexivity. exact Hd. }
        split; [|eauto]. by rewrite Hfd.
    + match type of Hin_size with get_file_size _ ?w0 = _ =>
        destruct (update_status_files p f "done" w0) as (wd & Hd & Hfd) end.
      eexists _, wd. split.
      { erewrite run_bind_raise; [reflexivity|].
        eapply run_finally.
        - erewrite run_bind by reflexivity.
          apply run_bind_raise. exact Hin_size.
        - erewrite run_bind by reflexivity. exact Hd. }
      split; [|eauto]. by rewrite Hfd.
  - (* the engine's own error *)
    destruct (fs !! out) as [size|] eqn:Hfs.
    + match goal with |- context [set_files fs ?w0] =>
        destruct (update_status_files p f "failed"
          (add_event (Log DEBUG "Removed output file.")
            (add_event (Unlink out)
              (set_files (delete out fs)
                (add_event (Log DEBUG "Removing the failed output file.")
                  (add_event (Log ERROR ("Failed to transcode '" +:+ (p +:+ "/" +:+ f) +:+ "'"))
                     (set_files fs w0)))))))
          as (wd & Hd & Hfd) end.
      eexists _, wd. split.
      { erewrite run_bind; [reflexivity|]. eapply run_finally.
        - erewrite run_bind by reflexivity.
          erewrite run_bind by apply run_exists.
          cbn [files set_files add_event]. rewrite Hfs, bool_decide_true by eauto.
          erewrite run_bind by reflexivity.
          erewrite run_bind by (by eapply run_unlink).
          reflexivity.
        - erewrite run_bind by reflexivity. exact Hd. }
      split; [done|]. split; [by rewrite Hfd|]. intros _.
      pose proof (update_status_events p f "failed" _ _ _ (Unlink out) Hd) as Hkeep.
      apply Hkeep. cbn [events add_event]. rewrite !elem_of_app, !list_elem_of_singleton.
      auto.
    + match goal with |- context [set_files fs ?w0] =>
        destruct (update_status_files p f "failed"
          (add_event (Log DEBUG ("Nothing to remove. '" +:+ out +:+ "' not found."))
             (add_event (Log ERROR ("Failed to transcode '" +:+ (p +:+ "/" +:+ f) +:+ "'"))
                (set_files fs w0))))
          as (wd & Hd & Hfd) end.
      eexists _, wd. split.
      { erewrite run_bind; [reflexivity|]. eapply run_finally.
        - erewrite run_bind by reflexivity.
          erewrite run_bind by apply run_exists.
          cbn [files set_files add_event].
          rewrite Hfs, bool_decide_false by (by intros [? ?]).
          reflexivity.
        - erewrite run_bind by reflexivity. exact Hd. }
      split; [done|]. split; [|by intros [? ?]].
      rewrite Hfd. cbn [files set_files add_event]. by rewrite delete_id.
  - (* another exception: no handler, and [finally] finds no status *)
    eexists _, _. split; [reflexivity|]. done.
Qed.
Lemma run_replace src dst w size :
  files w !! src = Some size →
  Path.replace src dst w
  = (Ret (), add_event (Rename src dst)
               (set_files (<[dst := size]> (delete src (files w))) w)).
Proof. unfold Path.replace. by intros ->. Qed.

(** The loop of [transcode_queue] runs its body on each entry in turn, on
    the world the entries before it left: what holds of a one-entry queue
    from every world holds of every processed entry. *)
Lemma transcode_queue_cons DELETE ffmpeg entry rest w :
  transcode_queue DELETE ffmpeg (entry :: rest) w
  = match transcode_queue DELETE ffmpeg [entry] w with
    | (Ret _, w1) => transcode_queue DELETE ffmpeg rest w1
    | (Raise e, w1) => (Raise e, w1)
    | (SystemExit c, w1) => (SystemExit c, w1)
    end.
Proof.
  cbn [transcode_queue]. unfold mbind, M_bind, bind, mret, M_ret, ret.
  destruct (Transcode.transcode ffmpeg _ w) as [[status|e|c] w1]; [|done..].
  match goal with |- context [(if ?b then ?m1 else ?m2) w1] =>
    by destruct ((if b then m1 else m2) w1) as [[[]|e'|c'] w2] end.
Qed.


(** ** The per-file run: status, output and original *)



(** C6, the claim as stated refuted: the engine fails on a storage that
    rejects the status updates.  The run returns failed and removes the
    partial output, and the entry is not marked failed: it is as queued as
    it was. *)
Lemma failed_transcode_on_failing_storage_is_not_marked :
  let run :=
    Transcode.transcode ffmpeg_fails (Transcode.init "/mnt" "movie.mkv") broken_world in
  ffmpeg_fails "/mnt/movie.mkv" "/mnt/movie.mp4" "movie" (files broken_world)
  = (FFmpegError, <["/mnt/movie.mp4" := 7%N]> (files broken_world))
  ∧ run.1 = Ret "failed"
  ∧ files run.2 !! "/mnt/movie.mp4" = None
  ∧ queue run.2 = queue broken_world
  ∧ Queue.Row "/mnt" "movie.mkv" "Y" "queued" ∈ queue run.2
  ∧ Queue.Row "/mnt" "movie.mkv" "Y" "failed" ∉ queue run.2.
Proof.
  cbn zeta.
  assert (Hrun : queue (Transcode.transcode ffmpeg_fails
                          (Transcode.init "/mnt" "movie.mkv") broken_world).2
                 = queue broken_world) by (by vm_compute).
  split; [reflexivity|]. split; [by vm_compute|]. split; [by vm_compute|].
  split; [exact Hrun|]. rewrite Hrun. split; [apply list_elem_of_here|].
  by apply (bool_decide_unpack _).
Qed.

(** C6, amended.  When the engine fails with its own error, the run
    returns failed and whatever the engine left at the output path is
    removed: afterwards no file is at the output path, and no other file
    was touched.  When the storage accepts the status updates, the rows of
    the entry, and no others, are marked failed; when it rejects them, the
    rejection is logged and the table stays as it was. *)
Theorem failed_transcode_leaves_no_output
    (ffmpeg : engine) (p f out title : string) (fs : gmap string N) (w : World) :
  Transcode.output_file (Transcode.init p f) = Some out →
  Transcode.video_title (Transcode.init p f) = Some title →
  ffmpeg (p +:+ "/" +:+ f) out title (files w) = (FFmpegError, fs) →
  ∃ w',
    Transcode.transcode ffmpeg (Transcode.init p f) w = (Ret "failed", w')
    ∧ files w' !! out = None
    ∧ files w' = delete out fs
    ∧ (is_Some (fs !! out) → Unlink out ∈ events w')
    ∧ (if db_ok w
       then Forall2 (λ row row',
                Queue.path row' = Queue.path row
                ∧ Queue.filename row' = Queue.filename row
                ∧ Queue.transcode row' = Queue.transcode row
                ∧ (Queue.key row = (p, f) → Queue.status row' = "failed")
                ∧ (Queue.key row ≠ (p, f) → row' = row))
              (queue w) (queue w')
       else queue w' = queue w
            ∧ Log ERROR "SQLite transcode status update failed." ∈ events w').
Proof.
  intros Hout Htitle Heng.
  destruct (transcode_files ffmpeg p f out title FFmpegError fs w Hout Htitle Heng)
    as (outcome & w' & Hrun & -> & Hfiles & Hunlink).
  destruct (transcode_table ffmpeg p f out title FFmpegError fs w _ w'
              Hout Htitle Heng Hrun) as (_ & Hq & _).
  exists w'. split; [exact Hrun|]. rewrite Hfiles.
  split; [apply lookup_delete_eq|]. split; [done|]. split; [done|].
  rewrite Hq. destruct (db_ok w) eqn:Hdb; [apply update_keeps_other_rows|].
  split; [done|]. eapply transcode_logs_rejection; eauto.
Qed.

(** C7. The orchestrator on one entry.  With DELETE off, or when the
    engine did not end normally, or when the run did not return done (a
    file of the size report is missing), the original is as the engine
    left it.  With
    DELETE on and the run done, an [.mkv] original is unlinked and the
    output stays under its final name; an [.mp4] original is replaced by
    the intermediate output, renamed over it. *)
Theorem original_disposed_only_when_done_and_DELETE
    (DELETE : bool) (ffmpeg : engine) (p f out title : string)
    (r : ffmpeg_result) (fs : gmap string N) (w : World) :
  Transcode.output_file (Transcode.init p f) = Some out →
  Transcode.video_title (Transcode.init p f) = Some title →
  ffmpeg (p +:+ "/" +:+ f) out title (files w) = (r, fs) →
  ∃ outcome w',
    transcode_queue DELETE ffmpeg [(p, f)] w = (outcome, w')
    ∧ (DELETE = false ∨ r ≠ Completed
       ∨ fs !! (p +:+ "/" +:+ f) = None ∨ fs !! out = None →
       files w' = (if r is FFmpegError then delete out fs else fs)
       ∧ files w' !! (p +:+ "/" +:+ f) = fs !! (p +:+ "/" +:+ f))
    ∧ (∀ isz osz,
         DELETE = true → r = Completed →
         fs !! (p +:+ "/" +:+ f) = Some isz → fs !! out = Some osz →
         outcome = Ret ()
         ∧ (Py.endswith f ".mkv" = true →
            files w' = delete (p +:+ "/" +:+ f) fs
            ∧ files w' !! (p +:+ "/" +:+ f) = None
            ∧ files w' !! out = Some osz)
         ∧ (Py.endswith f ".mp4" = true →
            files w' = <[p +:+ "/" +:+ f := osz]> (delete out fs)
            ∧ files w' !! (p +:+ "/" +:+ f) = Some osz
            ∧ files w' !! out = None)).
Proof.
  intros Hout Htitle Heng.
  destruct (init_output p f out Hout) as (Hne & Hext).
  destruct (init_fields p f) as (_ & _ & Hin).
  destruct (transcode_files ffmpeg p f out title r fs w Hout Htitle Heng)
    as (outcome & w1 & Hrun & Hfiles).
  cbn [transcode_queue fst snd].
  destruct r as [| |e].
  - (* engine success *)
    destruct Hfiles as (Hfs & Hres).
    destruct (fs !! (p +:+ "/" +:+ f)) as [isz|] eqn:Hfi;
      [destruct (fs !! out) as [osz|] eqn:Hfo|].
    + subst outcome. erewrite run_bind by exact Hrun.
      rewrite bool_decide_true by done. destruct DELETE; cbn [andb].
      * (* the original is disposed of *)
        unfold Transcode.delete_original. rewrite Hin, Hout.
        destruct Hext as [(Hf & Hi)|(Hf & Hi & Hi')].
        -- rewrite Hi. eexists _, _. split.
           { erewrite run_bind; [reflexivity|].
             erewrite run_bind by (eapply run_unlink; by rewrite Hfs).
             reflexivity. }
           cbn [files set_files add_event]. rewrite Hfs.
           split; [intros [|[|[|]]]; done|].
           intros ? ? _ _ [= <-] [= <-]. split; [done|]. split.
           ++ intros _. rewrite lookup_delete_eq, lookup_delete_ne by done. done.
           ++ intros Hmp4. by rewrite (endswith_mp4_not_mkv _ Hmp4) in Hf.
        -- rewrite Hi, Hi'. eexists _, _. split.
           { erewrite run_bind; [reflexivity|].
             erewrite run_bind by reflexivity.
             erewrite run_bind by (eapply run_replace; by rewrite Hfs).
             reflexivity. }
           cbn [files set_files add_event]. rewrite Hfs.
           split; [intros [|[|[|]]]; done|].
           intros ? ? _ _ [= <-] [= <-]. split; [done|]. split.
           ++ intros Hmkv. by rewrite (endswith_mp4_not_mkv _ Hf) in Hmkv.
           ++ intros _. rewrite lookup_insert_eq, lookup_insert_ne, lookup_delete_eq by done.
              done.
      * eexists _, _. split; [reflexivity|]. rewrite Hfs. split; [done|].
        intros; done.
    + destruct Hres as (file & ->). eexists _, _. split.
      { apply run_bind_raise. exact Hrun. }
      rewrite Hfs. split; [done|]. intros; done.
    + destruct Hres as (file & ->). eexists _, _. split.
      { apply run_bind_raise. exact Hrun. }
      rewrite Hfs. split; [done|]. intros; done.
  - (* the engine's own error *)
    destruct Hfiles as (-> & Hfs & _).
    erewrite run_bind by exact Hrun.
    rewrite bool_decide_false by done. cbn [andb].
    eexists _, _. split; [reflexivity|]. rewrite Hfs. split.
    + intros _. split; [done|]. by rewrite lookup_delete_ne.
    + intros; done.
  - (* another exception of the engine *)
    destruct Hfiles as (-> & Hfs).
    eexists _, _. split; [by apply run_bind_raise|]. rewrite Hfs.
    split; [done|]. intros; done.
Qed.

(** *** Selection *)

Lemma select_where_elem cond tbl k :
  k ∈ Queue.select_where cond tbl ↔ ∃ r, r ∈ tbl ∧ cond r = true ∧ Queue.key r = k.
Proof.
  unfold Queue.select_where. rewrite list_elem_of_fmap. split.
  - intros (r & -> & Hr). apply list_elem_of_In, List.filter_In in Hr as [Hr Hc].
    exists r. by rewrite list_elem_of_In.
  - intros (r & Hr & Hc & <-). exists r. split; [done|].
    apply list_elem_of_In, List.filter_In. by rewrite <- list_elem_of_In.
Qed.

Lemma is_failed_spec r : is_failed r = true ↔ Queue.status r = "failed".
Proof. unfold is_failed. by rewrite bool_decide_eq_true. Qed.

Lemma is_queued_spec r :
  is_queued r = true ↔ Queue.transcode r = "Y" ∧ Queue.status r = "queued".
Proof. unfold is_queued. by rewrite andb_true_iff, !bool_decide_eq_true. Qed.




Lemma first_rows_prefix n rows : Queue.first_rows n rows `prefix_of` rows.
Proof.
  revert n. induction rows as [|row rest IH]; intros n; [done|].
  cbn [Queue.first_rows]. destruct (n <=? 0); [apply prefix_nil|].
  apply prefix_cons, IH.
Qed.




(** *** The report *)












(** *** The classifier *)

(** The decision table of the classifier, for every outcome of the two
    probes but an exception of the second one, and an exception of the
    first one other than [CalledProcessError]. *)
Lemma read_metadata_decision_table
    (exiftool_CompressorID exiftool_DocType : string → exn + string)
    (path filename : string) (w : World) :
  let video_file := path +:+ "/" +:+ filename in
  let tag out := exiftool_CompressorID video_file = inr out in
  let doctype out := exiftool_DocType video_file = inr out in
  let verdict :=
    (read_metadata unicode exiftool_CompressorID exiftool_DocType path filename w).1 in
  (exiftool_CompressorID video_file = inl CalledProcessError →
   verdict = Ret (filename, "N", "unknown"))
  ∧ (∀ out, tag out → Py.lower_strip unicode out = "hvc1" →
       verdict = Ret (filename, "N", "skipped"))
  ∧ (∀ out out2, tag out → Py.lower_strip unicode out = EmptyString →
       doctype out2 → Py.lower_strip unicode out2 = "matroska" →
       verdict = Ret (filename, "Y", "queued"))
  ∧ (∀ out out2, tag out → Py.lower_strip unicode out = EmptyString →
       doctype out2 → Py.lower_strip unicode out2 ≠ "matroska" →
       verdict = Ret (filename, "N", "unknown"))
  ∧ (∀ out, tag out → Py.lower_strip unicode out ≠ "hvc1" →
       Py.lower_strip unicode out ≠ EmptyString →
       verdict = Ret (filename, "Y", "queued")).
Proof.
  cbn zeta. unfold read_metadata, verify_metadata.
  repeat split.
  - by intros ->.
  - intros out -> Htag. by rewrite decide_True.
  - intros out out2 -> Htag -> Hdoc.
    rewrite decide_False, decide_True by (by rewrite ?Htag).
    by rewrite decide_True.
  - intros out out2 -> Htag -> Hdoc.
    rewrite decide_False, decide_True by (by rewrite ?Htag).
    by rewrite decide_False.
  - intros out -> Hne1 Hne2. by rewrite !decide_False.
Qed.

(** C2, at the input where the code departs from it: the compressor tag
    is empty and the document-type probe fails.  The classifier returns
    no classification; [CalledProcessError] propagates to the caller (and
    through [scan_directory], which then inserts nothing). *)
Theorem read_metadata_secondary_failure_propagates :
  (read_metadata unicode empty_tag probe_error "/mnt" "clip.mp4" empty_world).1
  = Raise CalledProcessError
  ∧ (∀ verdict,
       (read_metadata unicode empty_tag probe_error "/mnt" "clip.mp4" empty_world).1
       ≠ Ret verdict)
  ∧ (scan_directory unicode empty_tag probe_error
       (λ _, [("/mnt", ["clip.mp4"])]) empty_world).1 = Raise CalledProcessError
  ∧ queue (scan_directory unicode empty_tag probe_error
             (λ _, [("/mnt", ["clip.mp4"])]) empty_world).2 = [].
Proof. repeat split; try reflexivity. intros verdict. vm_compute. discriminate. Qed.

(** *** The output path *)

(** An [.mp4] source never gets its own path as output path. *)
Lemma mp4_output_distinct p f :
  Py.endswith f ".mp4" = true →
  ∃ out, Transcode.output_file (Transcode.init p f) = Some out
         ∧ out ≠ Transcode.input_file (Transcode.init p f).
Proof.
  intros Hmp4.
  destruct (init_video p f) as (out & title & Hinit & Hne).
  { unfold is_video. by rewrite Hmp4, orb_true_r. }
  exists out. by rewrite Hinit.
Qed.

(** C4, at an input where the code departs from it: the directory of the
    source has [.mkv] in its name.  The claimed output path is
    [/mnt/show.mkv/e01.mp4]; the code rewrites the directory too. *)
Theorem mkv_output_rewrites_directory :
  Py.endswith "e01.mkv" ".mkv" = true
  ∧ Transcode.input_file (Transcode.init "/mnt/show.mkv" "e01.mkv")
    = "/mnt/show.mkv/e01.mkv"
  ∧ replace_extension "/mnt/show.mkv/e01.mkv" ".mkv" ".mp4" = "/mnt/show.mkv/e01.mp4"
  ∧ Transcode.output_file (Transcode.init "/mnt/show.mkv" "e01.mkv")
    = Some "/mnt/show.mp4/e01.mp4"
  ∧ Transcode.output_file (Transcode.init "/mnt/show.mkv" "e01.mkv")
    ≠ Some (replace_extension "/mnt/show.mkv/e01.mkv" ".mkv" ".mp4").
Proof. repeat split; try reflexivity. vm_compute. discriminate. Qed.
(** *** The batch insert *)

Lemma violates_unique_spec r tbl :
  Queue.violates_unique r tbl = true ↔ Queue.key r ∈ Queue.key <$> tbl.
Proof. unfold Queue.violates_unique. by rewrite bool_decide_eq_true. Qed.

(** [executemany] inserts a prefix of the parameter sets: all of them, or
    those before the first one that cannot be bound or whose key is
    taken. *)
Lemma executemany_insert_prefix rows tbl :
  NoDup (Queue.key <$> tbl) →
  ∃ committed rest,
    rows = committed ++ rest
    ∧ (Queue.executemany_insert rows tbl).1 = tbl ++ committed
    ∧ NoDup (Queue.key <$> (tbl ++ committed))
    ∧ Forall (λ r, Queue.encodable r = true) committed
    ∧ match rest with
      | [] => (Queue.executemany_insert rows tbl).2 = Queue.Executed
      | d :: _ =>
          Queue.encodable d = false
          ∧ (Queue.executemany_insert rows tbl).2 = Queue.Unencodable
          ∨ Queue.encodable d = true
            ∧ (Queue.executemany_insert rows tbl).2 = Queue.Duplicate
            ∧ Queue.key d ∈ Queue.key <$> (tbl ++ committed)
      end.
Proof.
  revert tbl. induction rows as [|r rows IH]; intros tbl Hnd.
  - exists [], []. simpl. by rewrite !app_nil_r.
  - cbn [Queue.executemany_insert].
    destruct (Queue.encodable r) eqn:Henc; cbn [negb].
    2:{ exists [], (r :: rows). simpl. rewrite !app_nil_r. repeat split; auto. }
    destruct (Queue.violates_unique r tbl) eqn:Hdup.
    + exists [], (r :: rows). simpl. rewrite !app_nil_r.
      apply violates_unique_spec in Hdup. repeat split; auto.
    + assert (Hfresh : Queue.key r ∉ Queue.key <$> tbl).
      { rewrite <- violates_unique_spec. by rewrite Hdup. }
      destruct (IH (tbl ++ [r])) as (committed & rest & -> & Htbl & Hnd' & Hcom & Hrest).
      { rewrite fmap_app. apply NoDup_app. split; [done|]. split.
        - intros k Hk Hk'. apply list_elem_of_singleton in Hk' as ->. done.
        - apply NoDup_singleton. }
      exists (r :: committed), rest.
      rewrite Htbl. rewrite <- !app_assoc in *. repeat split; auto.
Qed.

(** The call as a whole, by the way [executemany] ends. *)
Lemma insert_scan_results_run rows w :
  let started :=
    add_event (Log DEBUG "Inserting scanned results into SQLite database.") w in
  let finally :=
    add_event (Log INFO ("Successfully inserted " +:+ pretty (length rows)
                         +:+ " entries into SQLite 'queue' table.")) in
  insert_scan_results rows w
  = if db_ok w then
      match Queue.executemany_insert rows (queue w) with
      | (tbl, Queue.Executed) => (Ret (), finally (set_queue tbl started))
      | (tbl, Queue.Duplicate) =>
          (Ret (),
           finally (add_event (Log ERROR "Duplicate filename found in SQLite table.")
                      (set_queue tbl started)))
      | (_, Queue.Unencodable) => (Raise UnicodeEncodeError, finally started)
      end
    else
      (SystemExit 1,
       finally (add_event (Log ERROR "<class 'sqlite3.Error'>")
                  (add_event (Log ERROR "SQLite insert execution failed.") started))).
Proof.
  cbn zeta.
  unfold insert_scan_results, try_finally, mbind, M_bind, bind,
    Db.executemany_insert, log, emit, mret, M_ret, ret, log_exception_sqlite,
    sys_exit, raise.
  cbn [db_ok queue add_event]. destruct (db_ok w); [|done].
  destruct (Queue.executemany_insert rows (queue w)) as [tbl []]; done.
Qed.

(** C3, at an input where the code departs from it: the batch [a; a; b]
    on an empty table.  The key of [b] is in the batch once and not in
    the table, so [b] is no duplicate.  The one [executemany] ends at the
    second [a]: the call returns normally with [a] in the table and
    without [b], and reports three entries inserted. *)
Theorem insert_stops_at_first_duplicate :
  let run := insert_scan_results [row_a; row_a; row_b] empty_world in
  run.1 = Ret ()
  ∧ (Queue.key row_b ∉ Queue.key <$> queue empty_world)
  ∧ Queue.key row_b ≠ Queue.key row_a
  ∧ queue run.2 = [row_a]
  ∧ (row_b ∉ queue run.2)
  ∧ events run.2
    = [Log DEBUG "Inserting scanned results into SQLite database.";
       Log ERROR "Duplicate filename found in SQLite table.";
       Log INFO "Successfully inserted 3 entries into SQLite 'queue' table."].
Proof.
  cbn zeta. repeat split; try reflexivity.
  - vm_compute. by intros ?%elem_of_nil.
  - discriminate.
  - vm_compute. intros Hb. apply list_elem_of_singleton in Hb. discriminate Hb.
Qed.

(** *** The invariant of the table *)

Lemma quiet_get {A} (f : World → A) : quiet (get f).
Proof. by intros w r w' [= <- <-]. Qed.

Lemma quiet_sys_exit {A} c : quiet (@sys_exit A c).
Proof. by intros w r w' [= <- <-]. Qed.

Lemma quiet_getattr {A} name (v : option A) : quiet (getattr name v).
Proof. destruct v; [apply quiet_ret|apply quiet_raise]. Qed.

Lemma quiet_getitem d k : quiet (getitem d k).
Proof. unfold getitem. destruct (d !! k); [apply quiet_ret|apply quiet_raise]. Qed.

Lemma quiet_for_each {A} (l : list A) (body : A → M unit) :
  (∀ x, quiet (body x)) → quiet (for_each l body).
Proof.
  intros Hbody. induction l as [|x l IH]; cbn [for_each].
  - apply quiet_ret.
  - apply quiet_bind; [apply Hbody|]. intros _. apply IH.
Qed.

Lemma quiet_finally {A} (body : M A) (fin : M unit) :
  quiet body → quiet fin → quiet (try_finally body fin).
Proof.
  intros Hb Hf w r w'. unfold try_finally.
  destruct (body w) as [rb w1] eqn:Hbw. destruct (Hb _ _ _ Hbw) as (?&?&?).
  destruct (fin w1) as [rf w2] eqn:Hfw. destruct (Hf _ _ _ Hfw) as (?&?&?).
  destruct rf; intros [= <- <-]; repeat split; congruence.
Qed.

Lemma quiet_select cond lim : quiet (Db.select cond lim).
Proof.
  intros w r w'. unfold Db.select.
  destruct (db_ok w) eqn:Hdb; intros [= <- <-]; by repeat split.
Qed.

Lemma quiet_select_status_counts : quiet Db.select_status_counts.
Proof.
  intros w r w'. unfold Db.select_status_counts.
  destruct (db_ok w) eqn:Hdb; intros [= <- <-]; by repeat split.
Qed.

#[local] Hint Resolve quiet_get quiet_sys_exit quiet_getattr quiet_getitem
  quiet_select quiet_select_status_counts : quiet.
#[local] Hint Extern 1 (quiet log_exception_sqlite) => apply quiet_log : quiet.
#[local] Hint Extern 2 (quiet (for_each _ _)) =>
  apply quiet_for_each; intros ? : quiet.
#[local] Hint Extern 2 (quiet (try_finally _ _)) => apply quiet_finally : quiet.

Lemma quiet_final_results : quiet final_results.
Proof. unfold final_results. quiet. Qed.

Lemma quiet_retry_failed : quiet retry_failed.
Proof. unfold retry_failed. quiet. Qed.

Lemma quiet_get_batch BATCH : quiet (get_batch unicode BATCH).
Proof. unfold get_batch. quiet. Qed.

Lemma quiet_delete_original self : quiet (Transcode.delete_original self).
Proof. unfold Transcode.delete_original. quiet. Qed.

Lemma quiet_verify_metadata dt file : quiet (verify_metadata unicode dt file).
Proof. unfold verify_metadata. quiet. Qed.

Lemma quiet_read_metadata cid dt p f : quiet (read_metadata unicode cid dt p f).
Proof. unfold read_metadata. pose proof (quiet_verify_metadata dt). quiet. Qed.

Lemma quiet_check_metadata cid dt video_list : quiet (check_metadata unicode cid dt video_list).
Proof.
  induction video_list as [|[p f] l IH]; cbn [check_metadata]; [apply quiet_ret|].
  pose proof (quiet_read_metadata cid dt). quiet.
Qed.

Lemma status_changed_refl K r : status_changed_on K r r.
Proof. unfold status_changed_on. auto. Qed.

Lemma status_changed_trans K r1 r2 r3 :
  status_changed_on K r1 r2 → status_changed_on K r2 r3 → status_changed_on K r1 r3.
Proof.
  unfold status_changed_on, Queue.key.
  intros (Hp & Hf & Ht & Hs) (Hp' & Hf' & Ht' & Hs').
  repeat split; try congruence.
  destruct Hs as [Hs|]; [|by right]. destruct Hs' as [Hs'|HK]; [left; congruence|].
  right. by rewrite <- Hp, <- Hf.
Qed.

Lemma table_changed_refl K tbl : Forall2 (status_changed_on K) tbl tbl.
Proof. apply Forall_Forall2_diag, Forall_forall. intros; apply status_changed_refl. Qed.

Lemma table_changed_trans K tbl1 tbl2 tbl3 :
  Forall2 (status_changed_on K) tbl1 tbl2 →
  Forall2 (status_changed_on K) tbl2 tbl3 →
  Forall2 (status_changed_on K) tbl1 tbl3.
Proof.
  intros H12. revert tbl3. induction H12 as [|r1 r2 l1 l2 Hr Hl IH]; intros tbl3 H23.
  - by inversion H23.
  - inversion H23 as [|? r3 ? l3 Hr' Hl']; subst. constructor; [|by apply IH].
    by eapply status_changed_trans.
Qed.

Lemma table_changed_mono (K K' : string * string → Prop) tbl tbl' :
  (∀ k, K k → K' k) →
  Forall2 (status_changed_on K) tbl tbl' → Forall2 (status_changed_on K') tbl tbl'.
Proof.
  intros HK Htbl. eapply Forall2_impl; [exact Htbl|].
  unfold status_changed_on. intros r r' (?&?&?&[?|?]); auto 10.
Qed.

Lemma table_changed_update st p f tbl :
  Forall2 (status_changed_on (λ k, k = (p, f))) tbl (Queue.update st p f tbl).
Proof.
  unfold Queue.update. apply Forall2_fmap_r, Forall_Forall2_diag, Forall_forall.
  intros r _. unfold compose.
  destruct (decide (Queue.key r = (p, f))); [|apply status_changed_refl].
  unfold status_changed_on. simpl. auto.
Qed.

Lemma touches_quiet {A} K (m : M A) : quiet m → touches K m.
Proof.
  intros Hq w r w' Hrun. destruct (Hq _ _ _ Hrun) as (-> & _).
  apply table_changed_refl.
Qed.

Lemma touches_bind {A B} K (m : M A) (k : A → M B) :
  touches K m → (∀ a, touches K (k a)) → touches K (m ≫= k).
Proof.
  intros Hm Hk w r w'. unfold mbind, M_bind, bind.
  destruct (m w) as [[a|e|c] w1] eqn:Hmw; pose proof (Hm _ _ _ Hmw) as H1.
  - intros Hkw. eapply table_changed_trans; [exact H1|]. by eapply Hk.
  - by intros [= <- <-].
  - by intros [= <- <-].
Qed.

Lemma touches_finally {A} K (body : M A) (fin : M unit) :
  touches K body → touches K fin → touches K (try_finally body fin).
Proof.
  intros Hb Hf w r w'. unfold try_finally.
  destruct (body w) as [rb w1] eqn:Hbw. pose proof (Hb _ _ _ Hbw) as H1.
  destruct (fin w1) as [rf w2] eqn:Hfw. pose proof (Hf _ _ _ Hfw) as H2.
  destruct rf; intros [= <- <-]; by eapply table_changed_trans.
Qed.

Lemma touches_mono {A} (K K' : string * string → Prop) (m : M A) :
  (∀ k, K k → K' k) → touches K m → touches K' m.
Proof. intros HK Hm w r w' Hrun. eapply table_changed_mono; [exact HK|]. by eapply Hm. Qed.

Lemma touches_update_status p f st :
  touches (λ k, k = (p, f)) (update_status p f st).
Proof.
  intros w r w'. unfold update_status, mbind, M_bind, bind, Db.update.
  destruct (db_ok w); intros [= <- <-]; cbn [queue add_event set_queue].
  - apply table_changed_update.
  - apply table_changed_refl.
Qed.

Lemma touches_execute ffmpeg input output title K :
  touches K (Transcode.execute ffmpeg input output title).
Proof.
  intros w r w'. unfold Transcode.execute.
  destruct (ffmpeg _ _ _ _) as [r0 fs]. intros [= <- <-].
  apply table_changed_refl.
Qed.

Lemma touches_transcode ffmpeg self :
  touches (λ k, k = (Transcode.path self, Transcode.filename self))
          (Transcode.transcode ffmpeg self).
Proof.
  unfold Transcode.transcode.
  repeat first
    [ apply touches_update_status
    | apply touches_execute
    | apply touches_finally
    | apply touches_bind; [|intros ?]
    | apply touches_quiet; quiet; fail
    | case_match ].
Qed.

Lemma touches_transcode_queue DELETE ffmpeg queue_list :
  touches (λ k, k ∈ queue_list) (transcode_queue DELETE ffmpeg queue_list).
Proof.
  induction queue_list as [|[p f] l IH]; cbn [transcode_queue fst snd].
  - apply touches_quiet, quiet_ret.
  - apply touches_bind.
    + eapply touches_mono; [|apply touches_transcode].
      destruct (init_fields p f) as (-> & -> & _). intros k ->.
      apply list_elem_of_here.
    + intros status. apply touches_bind.
      * apply touches_quiet. case_match; [apply quiet_delete_original|apply quiet_ret].
      * intros _. eapply touches_mono; [|exact IH].
        intros k Hk. by apply list_elem_of_further.
Qed.

Lemma table_changed_keys K tbl tbl' :
  Forall2 (status_changed_on K) tbl tbl' → Queue.key <$> tbl' = Queue.key <$> tbl.
Proof.
  induction 1 as [|r r' l l' (Hp & Hf & _) _ IH]; [done|].
  rewrite !fmap_cons, IH. unfold Queue.key. by rewrite Hp, Hf.
Qed.

(** Status changes on rows that are to be transcoded keep the table
    well-formed. *)
Lemma table_ok_changed (K : string * string → Prop) tbl tbl' :
  table_ok tbl →
  Forall2 (status_changed_on K) tbl tbl' →
  (∀ r, r ∈ tbl → K (Queue.key r) → Queue.transcode r = "Y") →
  table_ok tbl'.
Proof.
  intros [Hnd Hrows] Hch HK. split.
  - by rewrite (table_changed_keys _ _ _ Hch).
  - clear Hnd. induction Hch as [|r r' l l' (Hp & Hf & Ht & Hs) Hl IH]; [done|].
    apply Forall_cons in Hrows as [[Hv Hr] Hrows]. constructor.
    + split; [by rewrite Hf|]. rewrite Ht. destruct Hs as [->|Hk]; [done|].
      left. apply HK; [apply list_elem_of_here|done].
    + apply IH; [done|]. intros r0 Hr0. apply HK. by apply list_elem_of_further.
Qed.

Lemma key_unique tbl r1 r2 :
  NoDup (Queue.key <$> tbl) → r1 ∈ tbl → r2 ∈ tbl →
  Queue.key r1 = Queue.key r2 → r1 = r2.
Proof.
  induction tbl as [|r tbl IH]; [by intros _ ?%elem_of_nil|].
  rewrite fmap_cons. intros [Hr Hnd]%NoDup_cons.
  intros [->|H1]%elem_of_cons [->|H2]%elem_of_cons Hkey; [done| | |by apply IH].
  - exfalso. apply Hr. rewrite Hkey. by apply list_elem_of_fmap_2.
  - exfalso. apply Hr. rewrite <- Hkey. by apply list_elem_of_fmap_2.
Qed.

(** In a well-formed table the selected keys belong to rows that are to
    be transcoded, and to no other row. *)
Lemma selected_rows_transcode cond tbl :
  table_ok tbl →
  (∀ r, row_ok r → cond r = true → Queue.transcode r = "Y") →
  ∀ r, r ∈ tbl → Queue.key r ∈ Queue.select_where cond tbl →
       Queue.transcode r = "Y" ∧ cond r = true.
Proof.
  intros [Hnd Hrows] Hcond r Hr (r0 & Hr0 & Hc & Hkey)%select_where_elem.
  assert (r0 = r) as -> by by eapply key_unique.
  split; [|done]. apply Hcond; [|done].
  rewrite Forall_forall in Hrows. by apply Hrows.
Qed.

Lemma queued_transcode r : row_ok r → is_queued r = true → Queue.transcode r = "Y".
Proof. by intros _ [? _]%is_queued_spec. Qed.

Lemma failed_transcode r : row_ok r → is_failed r = true → Queue.transcode r = "Y".
Proof.
  intros [_ [Hy|[_ [Hs|Hs]]]] Hf%is_failed_spec; [done| |]; congruence.
Qed.

Lemma get_batch_ret BATCH w l w1 :
  get_batch unicode BATCH w = (Ret l, w1) →
  queue w1 = queue w ∧ l `prefix_of` Queue.select_where is_queued (queue w).
Proof.
  intros Hrun. split; [by destruct (quiet_get_batch BATCH _ _ _ Hrun)|].
  revert Hrun.
  unfold get_batch, mbind, M_bind, bind, Db.select, log, emit, mret, M_ret, ret,
    log_exception_sqlite, sys_exit, Queue.limit.
  repeat (case_match; cbn [db_ok add_event queue] in * );
    intros; simplify_eq; try done; apply first_rows_prefix.
Qed.

Lemma retry_failed_ret w l w1 :
  retry_failed w = (Ret l, w1) →
  queue w1 = queue w ∧ l = Queue.select_where is_failed (queue w).
Proof.
  intros Hrun. split; [by destruct (quiet_retry_failed _ _ _ Hrun)|].
  revert Hrun.
  unfold retry_failed, mbind, M_bind, bind, Db.select, log, emit, mret, M_ret, ret,
    log_exception_sqlite, raise.
  repeat (case_match; cbn [db_ok add_event queue] in * );
    intros; by simplify_eq.
Qed.

Lemma transcode_queue_table_ok DELETE ffmpeg cond l w w1 :
  table_ok (queue w) →
  queue w1 = queue w →
  (∀ r, row_ok r → cond r = true → Queue.transcode r = "Y") →
  (∀ k, k ∈ l → k ∈ Queue.select_where cond (queue w)) →
  table_ok (queue (transcode_queue DELETE ffmpeg l w1).2).
Proof.
  intros Hok Hq Hcond Hl.
  destruct (transcode_queue DELETE ffmpeg l w1) as [r w'] eqn:Hrun.
  apply touches_transcode_queue in Hrun. rewrite Hq in Hrun.
  eapply table_ok_changed; [exact Hok|exact Hrun|].
  intros r0 Hr0 Hk. by eapply selected_rows_transcode; [| |done|apply Hl].
Qed.

Lemma keeps_quiet {A} (m : M A) : quiet m → keeps_table_ok m.
Proof. intros Hq w r w' Hrun. by destruct (Hq _ _ _ Hrun) as (-> & _). Qed.

Lemma keeps_bind {A B} (P : A → Prop) (m : M A) (k : A → M B) :
  keeps_table_ok m → returns P m → (∀ a, P a → keeps_table_ok (k a)) →
  keeps_table_ok (m ≫= k).
Proof.
  intros Hm HP Hk w r w'. unfold mbind, M_bind, bind.
  destruct (m w) as [[a|e|c] w1] eqn:Hmw.
  - intros Hkw Hok. eapply Hk; [by eapply HP|exact Hkw|by eapply Hm].
  - intros [= <- <-]. by eapply Hm.
  - intros [= <- <-]. by eapply Hm.
Qed.

Lemma returns_bind {A B} (P : A → Prop) (Q : B → Prop) (m : M A) (k : A → M B) :
  returns P m → (∀ a, P a → returns Q (k a)) → returns Q (m ≫= k).
Proof.
  intros HP Hk w b w'. unfold mbind, M_bind, bind.
  destruct (m w) as [[a|e|c] w1] eqn:Hmw; [|done..].
  intros Hkw. eapply Hk; [by eapply HP|exact Hkw].
Qed.

Lemma returns_true {A} (m : M A) : returns (λ _, True) m.
Proof. by intros w a w' _. Qed.

Lemma returns_ret {A} (P : A → Prop) a : P a → returns P (mret a).
Proof. by intros HP w a' w' [= <- <-]. Qed.

Lemma verify_metadata_verdict dt file : returns verdict_ok (verify_metadata unicode dt file).
Proof.
  intros w v w'. unfold verify_metadata, verdict_ok, mbind, M_bind, bind, log, emit,
    mret, M_ret, ret, raise.
  repeat case_match; intros; simplify_eq; simpl; auto.
Qed.

Lemma read_metadata_verdict cid dt p f :
  returns (λ v, v.1.1 = f ∧ verdict_ok (v.1.2, v.2)) (read_metadata unicode cid dt p f).
Proof.
  unfold read_metadata.
  destruct (cid (p +:+ "/" +:+ f)) as [e|stdout].
  - destruct e; try (by intros w v w' [=]).
    eapply returns_bind; [apply returns_true|]. intros _ _.
    apply returns_ret. unfold verdict_ok. simpl. auto.
  - repeat case_match.
    + eapply returns_bind; [apply returns_true|]. intros _ _.
      apply returns_ret. unfold verdict_ok. simpl. auto.
    + eapply returns_bind; [apply returns_true|]. intros _ _.
      eapply returns_bind; [apply verify_metadata_verdict|]. intros [t st] Hv.
      by apply returns_ret.
    + eapply returns_bind; [apply returns_true|]. intros _ _.
      apply returns_ret. unfold verdict_ok. simpl. auto.
Qed.

Lemma check_metadata_rows cid dt video_list :
  Forall (λ entry, is_video entry.2 = true) video_list →
  returns (Forall row_ok) (check_metadata unicode cid dt video_list).
Proof.
  induction 1 as [|[p f] l Hv Hl IH]; cbn [check_metadata].
  - by apply returns_ret.
  - eapply (returns_bind row_ok).
    + case_match.
      * eapply returns_bind; [apply returns_true|]. intros _ _.
        apply returns_ret. split; [exact Hv|by left].
      * eapply returns_bind; [apply read_metadata_verdict|].
        intros [[fn t] st] [Hfn Hverdict]. simpl in Hfn. subst fn.
        apply returns_ret. split; [exact Hv|exact Hverdict].
    + intros r Hr. eapply returns_bind; [exact IH|]. intros rows Hrows.
      apply returns_ret. by constructor.
Qed.

Lemma insert_scan_results_table_ok rows :
  Forall row_ok rows → keeps_table_ok (insert_scan_results rows).
Proof.
  intros Hrows w r w' Hrun [Hnd Hok].
  destruct (executemany_insert_prefix rows (queue w) Hnd)
    as (committed & rest & Hsplit & Htbl & Hnd' & _).
  assert (Hnew : table_ok (Queue.executemany_insert rows (queue w)).1).
  { rewrite Htbl. split; [done|]. apply Forall_app. split; [done|].
    rewrite Hsplit in Hrows. by apply Forall_app in Hrows as [? _]. }
  revert Hrun. rewrite insert_scan_results_run. cbn zeta.
  destruct (db_ok w).
  - destruct (Queue.executemany_insert rows (queue w)) as [tbl []];
      intros [= <- <-]; first [exact Hnew | by split].
  - intros [= <- <-]. by split.
Qed.

Lemma scan_directory_table_ok cid dt walk :
  keeps_table_ok (scan_directory unicode cid dt walk).
Proof.
  unfold scan_directory.
  match goal with |- context [check_metadata unicode _ _ ?l] => set (video_list := l) end.
  assert (Hvideo : Forall (λ entry : string * string, is_video entry.2 = true) video_list).
  { subst video_list. apply Forall_forall. intros [p f].
    rewrite list_elem_of_bind. intros ([root files] & Hin & Hwalk).
    apply list_elem_of_fmap in Hin as (f' & Heq & Hf'). simplify_eq/=.
    by apply list_elem_of_In, List.filter_In in Hf' as [? ?]. }
  eapply keeps_bind; [apply keeps_quiet; quiet|apply returns_true|]. intros ? _; lazy beta.
  eapply keeps_bind; [|apply returns_true|]; [|intros ? _; lazy beta].
  { apply keeps_quiet, quiet_for_each. intros [root filename]. apply quiet_log. }
  eapply keeps_bind; [apply keeps_quiet; quiet|apply returns_true|]. intros ? _; lazy beta.
  case_match; [apply keeps_quiet; quiet|].
  eapply keeps_bind; [apply keeps_quiet; quiet|apply returns_true|]. intros ? _; lazy beta.
  eapply keeps_bind.
  - apply keeps_quiet, quiet_check_metadata.
  - by apply check_metadata_rows.
  - intros rows Hrows. by apply insert_scan_results_table_ok.
Qed.

End Properties.

(** ** Reachable states *)

(** Every reachable table is well-formed. *)
Lemma reachable_table_ok w : reachable w → table_ok (queue w).
Proof.
  induction 1 as [w Hempty|w w' _ IH Hstep].
  - rewrite Hempty. split; [apply NoDup_nil_2|constructor].
  - destruct Hstep as [w u cid dt walk|w u BATCH DELETE ffmpeg l w1 Hsel
                       |w DELETE ffmpeg l w1 Hsel|w|w fs ok].
    + destruct (scan_directory u cid dt walk w) as [r w'] eqn:Hrun.
      by eapply scan_directory_table_ok.
    + apply get_batch_ret in Hsel as [Hq Hl].
      eapply (transcode_queue_table_ok _ _ is_queued); [exact IH|exact Hq| |].
      * apply queued_transcode.
      * intros k Hk. destruct Hl as [l' ->]. apply elem_of_app. by left.
    + apply retry_failed_ret in Hsel as [Hq ->].
      eapply (transcode_queue_table_ok _ _ is_failed); [exact IH|exact Hq| |done].
      apply failed_transcode.
    + destruct (final_results w) as [r w'] eqn:Hrun. cbn [snd].
      by destruct (quiet_final_results _ _ _ Hrun) as (-> & _).
    + exact IH.
Qed.

(** Every row of a reachable table names a file with one of the two
    extensions, the names for which [Transcode.__init__] sets the output
    path. *)
Lemma reachable_rows_are_videos w r :
  reachable w → r ∈ queue w →
  is_video (Queue.filename r) = true
  ∧ is_Some (Transcode.output_file
               (Transcode.init (Queue.path r) (Queue.filename r))).
Proof.
  intros [_ Hrows]%reachable_table_ok Hr. rewrite Forall_forall in Hrows.
  destruct (Hrows r Hr) as [Hv _]. split; [exact Hv|].
  destruct (init_video (Queue.path r) (Queue.filename r) Hv) as (out & ? & -> & _).
  by exists out.
Qed.

(** C9. In every reachable state no row with transcode N is selected for
    transcoding.  What the batch selection returns are keys of rows with
    transcode Y and status queued; what the retry selection returns are
    keys of failed rows, and a failed row has transcode Y, since only rows
    that were selected with transcode Y can have become failed.  Keys are
    unique, so a returned key names no other row. *)
Theorem never_selects_transcode_N (w : World) :
  reachable w →
  (∀ unicode BATCH queue_list w1 r,
     get_batch unicode BATCH w = (Ret queue_list, w1) →
     r ∈ queue w → Queue.key r ∈ queue_list →
     Queue.transcode r = "Y" ∧ Queue.status r = "queued")
  ∧ (∀ queue_list w1 r,
       retry_failed w = (Ret queue_list, w1) →
       r ∈ queue w → Queue.key r ∈ queue_list →
       Queue.transcode r = "Y" ∧ Queue.status r = "failed")
  ∧ (∀ r, r ∈ queue w → Queue.status r = "failed" → Queue.transcode r = "Y")
  ∧ (∀ r, r ∈ queue w → Queue.transcode r = "N" →
       (∀ unicode BATCH queue_list w1,
          get_batch unicode BATCH w = (Ret queue_list, w1) → Queue.key r ∉ queue_list)
       ∧ (∀ queue_list w1,
            retry_failed w = (Ret queue_list, w1) → Queue.key r ∉ queue_list)).
Proof.
  intros Hreach. pose proof (reachable_table_ok w Hreach) as Hok.
  assert (Hbatch : ∀ unicode BATCH queue_list w1 r,
     get_batch unicode BATCH w = (Ret queue_list, w1) →
     r ∈ queue w → Queue.key r ∈ queue_list →
     Queue.transcode r = "Y" ∧ Queue.status r = "queued").
  { intros u BATCH l w1 r [_ [l' Hl]]%get_batch_ret Hr Hk.
    destruct (selected_rows_transcode is_queued (queue w) Hok queued_transcode r Hr)
      as [Hy Hq]; [rewrite Hl; apply elem_of_app; by left|].
    by apply is_queued_spec in Hq. }
  assert (Hretry : ∀ queue_list w1 r,
     retry_failed w = (Ret queue_list, w1) →
     r ∈ queue w → Queue.key r ∈ queue_list →
     Queue.transcode r = "Y" ∧ Queue.status r = "failed").
  { intros l w1 r [_ ->]%retry_failed_ret Hr Hk.
    destruct (selected_rows_transcode is_failed (queue w) Hok failed_transcode r Hr Hk)
      as [Hy Hf].
    by apply is_failed_spec in Hf. }
  split; [exact Hbatch|]. split; [exact Hretry|]. split.
  - intros r Hr Hf. destruct Hok as [_ Hrows]. rewrite Forall_forall in Hrows.
    apply failed_transcode; [by apply Hrows|by apply is_failed_spec].
  - intros r Hr HN. split.
    + intros u BATCH l w1 Hrun Hk.
      destruct (Hbatch u BATCH l w1 r Hrun Hr Hk) as [Hy _]. congruence.
    + intros l w1 Hrun Hk.
      destruct (Hretry l w1 r Hrun Hr Hk) as [Hy _]. congruence.
Qed.

(** ** More of tasks.py *)

Section MoreProperties.
Context {unicode : Py.unicode}.

(** *** update_status *)

(** X1. [update_status] always returns normally and never touches the
    files.  On a working storage the rows with the given key, and no
    others, get the new status; the number and order of the rows and
    their path, filename and transcode columns stay.  On a broken storage
    the table is unchanged and the failure is only logged. *)
Theorem update_status_changes_only_the_status (p f st : string) (w : World) :
  ∃ w',
    update_status p f st w = (Ret (), w')
    ∧ files w' = files w
    ∧ db_ok w' = db_ok w
    ∧ (if db_ok w
       then Forall2 (λ r r',
                Queue.path r' = Queue.path r ∧ Queue.filename r' = Queue.filename r
                ∧ Queue.transcode r' = Queue.transcode r
                ∧ (Queue.key r = (p, f) → Queue.status r' = st)
                ∧ (Queue.key r ≠ (p, f) → r' = r))
              (queue w) (queue w')
       else queue w' = queue w
            ∧ Log ERROR "SQLite transcode status update failed." ∈ events w').
Proof.
  unfold update_status, mbind, M_bind, bind, Db.update, log, emit, log_exception_sqlite.
  destruct (db_ok w) eqn:Hdb; eexists; (split; [reflexivity|]);
    cbn [files queue db_ok events add_event set_queue].
  - repeat split; [done|]. apply update_keeps_other_rows.
  - repeat split; [done|]. rewrite !elem_of_app, !list_elem_of_singleton. auto.
Qed.

Lemma update_absent_key st p f tbl :
  (p, f) ∉ Queue.key <$> tbl → Queue.update st p f tbl = tbl.
Proof.
  intros Hnot. unfold Queue.update. rewrite <- (list_fmap_id tbl) at 2.
  apply list_fmap_ext. intros i r Hr. rewrite decide_False; [done|].
  intros Hk. apply Hnot. rewrite <- Hk. apply list_elem_of_fmap_2.
  by eapply list_elem_of_lookup_2.
Qed.

(** X2. [update_status] does not look at the number of rows the [UPDATE]
    matched: for a key that has no row, on a working storage, the table
    stays as it is and the success line is logged all the same. *)
Theorem update_status_of_absent_key_reports_success (p f st : string) (w : World) :
  db_ok w = true →
  (p, f) ∉ Queue.key <$> queue w →
  ∃ w',
    update_status p f st w = (Ret (), w')
    ∧ queue w' = queue w
    ∧ Log INFO ("Updated status for '" +:+ p +:+ "/" +:+ f +:+ "' to '" +:+ st +:+ "'.")
        ∈ events w'.
Proof.
  intros Hdb Habsent. rewrite update_status_ok by done. eexists. split; [reflexivity|].
  cbn [queue events add_event set_queue]. split; [by apply update_absent_key|].
  rewrite !elem_of_app, !list_elem_of_singleton. auto.
Qed.

Lemma update_status_broken p f st w :
  db_ok w = false →
  ∃ w', update_status p f st w = (Ret (), w')
        ∧ queue w' = queue w ∧ db_ok w' = false ∧ files w' = files w.
Proof.
  intros Hdb.
  unfold update_status, mbind, M_bind, bind, Db.update, log, emit, log_exception_sqlite.
  rewrite Hdb. eexists. split; [reflexivity|done].
Qed.

(** X3. Two status updates of the same key in a row leave the table as
    the second one alone does: the last status written wins. *)
Theorem update_status_last_write_wins (p f st1 st2 : string) (w : World) :
  queue ((update_status p f st1;; update_status p f st2) w).2
  = queue (update_status p f st2 w).2.
Proof.
  destruct (db_ok w) eqn:Hdb.
  - erewrite run_bind by (by apply update_status_ok).
    rewrite !update_status_ok by done.
    cbn [queue add_event set_queue snd]. apply update_update.
  - destruct (update_status_broken p f st1 w Hdb) as (w1 & Hrun1 & Hq1 & Hdb1 & _).
    erewrite run_bind by exact Hrun1.
    destruct (update_status_broken p f st2 w1 Hdb1) as (w2 & -> & Hq2 & _).
    destruct (update_status_broken p f st2 w Hdb) as (w3 & -> & Hq3 & _).
    cbn [snd]. congruence.
Qed.


(** *** Transcode.__init__ *)

Lemma length_append s t :
  String.length (s +:+ t) = (String.length s + String.length t)%nat.
Proof. induction s as [|c s IH]; [done|]. rewrite append_cons. simpl. by rewrite IH. Qed.

Lemma substring_prefix u t : String.substring 0 (String.length u) (u +:+ t) = u.
Proof.
  induction u as [|c u IH]; [by destruct t|].
  rewrite append_cons. simpl. by rewrite IH.
Qed.

Lemma removesuffix_append u suf : Py.removesuffix (u +:+ suf) suf = u.
Proof.
  unfold Py.removesuffix.
  rewrite (proj2 (endswith_app (u +:+ suf) suf)) by eauto.
  rewrite length_append.
  replace (String.length u + String.length suf - String.length suf)%nat
    with (String.length u) by lia.
  apply substring_prefix.
Qed.

Lemma removesuffix_round_trip s suf :
  Py.endswith s suf = true → Py.removesuffix s suf +:+ suf = s.
Proof. intros [u ->]%endswith_app. by rewrite removesuffix_append. Qed.

(** X4. For a file name with one of the two extensions the title is the
    name without the extension: the title followed by the extension that
    was tested is the file name again. *)
Theorem video_title_is_the_stem (p f : string) :
  is_video f = true →
  ∃ title ext,
    Transcode.video_title (Transcode.init p f) = Some title
    ∧ (ext = ".mkv" ∨ ext = ".mp4")
    ∧ title +:+ ext = f.
Proof.
  unfold is_video, Transcode.init. intros Hv.
  destruct (Py.endswith f ".mkv") eqn:Hmkv.
  - exists (Py.removesuffix f ".mkv"), ".mkv". split; [done|]. split; [by left|].
    by apply removesuffix_round_trip.
  - simpl in Hv. rewrite Hv.
    exists (Py.removesuffix f ".mp4"), ".mp4". split; [done|]. split; [by right|].
    by apply removesuffix_round_trip.
Qed.

Lemma drop_all s : Py.drop (String.length s) s = EmptyString.
Proof. induction s as [|c s IH]; [done|]. exact IH. Qed.

Lemma replace_scan_empty fuel old new :
  Py.replace_scan fuel old new EmptyString = EmptyString.
Proof. by destruct fuel. Qed.

Lemma append_empty_r s : s +:+ EmptyString = s.
Proof. induction s as [|c s IH]; [done|]. by rewrite append_cons, IH. Qed.

(** When [old] occurs in [u ++ old] at the end only, the scan replaces
    that occurrence and nothing else. *)
Lemma replace_scan_only_suffix old new u :
  old ≠ EmptyString →
  (∀ i, (i < String.length u)%nat →
        Py.startswith (Py.drop i (u +:+ old)) old = false) →
  ∀ fuel, (String.length (u +:+ old) ≤ fuel)%nat →
    Py.replace_scan fuel old new (u +:+ old) = u +:+ new.
Proof.
  intros Hold. induction u as [|c u IH]; intros Hocc fuel Hfuel.
  - rewrite !append_empty in *. destruct old as [|a old]; [done|].
    destruct fuel as [|fuel]; [simpl in Hfuel; lia|].
    cbn [Py.replace_scan]. rewrite startswith_refl, drop_all, replace_scan_empty.
    by rewrite append_empty_r.
  - rewrite !append_cons in *. destruct fuel as [|fuel]; [simpl in Hfuel; lia|].
    cbn [Py.replace_scan].
    pose proof (Hocc 0%nat) as H0. cbn [Py.drop] in H0.
    rewrite H0 by (simpl; lia). f_equal. apply IH.
    + intros i Hi. specialize (Hocc (S i)). cbn [Py.drop] in Hocc.
      apply Hocc. simpl. lia.
    + simpl in Hfuel. lia.
Qed.

(** X5. When the extension of the source occurs in the input path at
    its end only, the output path is the input path with the extension,
    and nothing else, replaced: [.mp4] for an [.mkv] source, [.h265] for
    an [.mp4] source. *)
Theorem output_file_replaces_the_extension (p f : string) :
  let input := p +:+ "/" +:+ f in
  let ext := if Py.endswith f ".mkv" then ".mkv" else ".mp4" in
  let new := if Py.endswith f ".mkv" then ".mp4" else ".h265" in
  is_video f = true →
  (∀ i, (i + String.length ext < String.length input)%nat →
        Py.startswith (Py.drop i input) ext = false) →
  Transcode.output_file (Transcode.init p f) = Some (replace_extension input ext new).
Proof.
  cbn zeta. unfold is_video, Transcode.init, replace_extension. intros Hv Hocc.
  assert (Hgen : ∀ ext new : string,
    ext ≠ EmptyString →
    Py.endswith (p +:+ "/" +:+ f) ext = true →
    (∀ i, (i + String.length ext < String.length (p +:+ "/" +:+ f))%nat →
          Py.startswith (Py.drop i (p +:+ "/" +:+ f)) ext = false) →
    Py.replace (p +:+ "/" +:+ f) ext new
    = Py.removesuffix (p +:+ "/" +:+ f) ext +:+ new).
  { intros ext new Hext Hend Hno. apply endswith_app in Hend as [u Hu].
    rewrite Hu in *. rewrite removesuffix_append. unfold Py.replace.
    destruct ext as [|a ext]; [done|].
    apply replace_scan_only_suffix; [done| |done].
    intros i Hi. apply Hno. rewrite length_append. lia. }
  destruct (Py.endswith f ".mkv") eqn:Hmkv.
  - cbn [Transcode.output_file]. f_equal. apply Hgen; [done| |done].
    by do 2 apply endswith_prepend.
  - simpl in Hv. rewrite Hv. cbn [Transcode.output_file]. f_equal.
    apply Hgen; [done| |done]. by do 2 apply endswith_prepend.
Qed.

(** An extension that starts with its only dot cannot overlap itself. *)
Lemma no_overlap_mkv rest :
  Py.endswith (".mkv" +:+ rest) ".mkv" = true →
  rest = EmptyString ∨ Py.endswith rest ".mkv" = true.
Proof.
  intros [u Hu]%endswith_app.
  destruct u as [|a [|b [|c [|d u]]]]; cbn in Hu; simplify_eq; [by left|].
  right. apply endswith_app. by exists u.
Qed.

Lemma no_overlap_mp4 rest :
  Py.endswith (".mp4" +:+ rest) ".mp4" = true →
  rest = EmptyString ∨ Py.endswith rest ".mp4" = true.
Proof.
  intros [u Hu]%endswith_app.
  destruct u as [|a [|b [|c [|d u]]]]; cbn in Hu; simplify_eq; [by left|].
  right. apply endswith_app. by exists u.
Qed.

Lemma length_drop n s : (String.length (Py.drop n s) ≤ String.length s - n)%nat.
Proof.
  revert s. induction n as [|n IH]; intros [|c s]; simpl; try lia. apply IH.
Qed.

(** The replacement of a suffix that cannot overlap itself is never
    skipped: the result ends with the new suffix. *)
Lemma replace_scan_suffix old new :
  old ≠ EmptyString →
  (∀ rest, Py.endswith (old +:+ rest) old = true →
           rest = EmptyString ∨ Py.endswith rest old = true) →
  ∀ fuel s, (String.length s ≤ fuel)%nat →
    Py.endswith s old = true →
    Py.endswith (Py.replace_scan fuel old new s) new = true.
Proof.
  intros Hold Hover fuel. induction fuel as [|fuel IH]; intros s Hlen Hend.
  - destruct s; [|simpl in Hlen; lia].
    cbn [Py.endswith] in Hend. rewrite orb_false_r in Hend.
    apply String.eqb_eq in Hend. congruence.
  - destruct s as [|c s].
    { cbn [Py.endswith] in Hend. rewrite orb_false_r in Hend.
      apply String.eqb_eq in Hend. congruence. }
    cbn [Py.replace_scan]. destruct (Py.startswith (String c s) old) eqn:Hpre.
    + pose proof (startswith_drop _ _ Hpre) as Hs.
      pose proof (length_drop (String.length old) (String c s)) as Hdrop.
      assert (0 < String.length old)%nat by (destruct old; [done|simpl; lia]).
      rewrite Hs in Hend. apply Hover in Hend as [Hrest|Hrest].
      * rewrite Hrest, replace_scan_empty, append_empty_r.
        apply endswith_app. by exists EmptyString.
      * apply endswith_prepend, IH; [simpl in *; lia|done].
    + cbn [Py.endswith] in Hend. apply orb_true_iff in Hend as [Heq|Hend].
      * apply String.eqb_eq in Heq as <-. by rewrite startswith_refl in Hpre.
      * cbn [Py.endswith]. rewrite IH; [apply orb_true_r|simpl in Hlen; lia|done].
Qed.

(** X6. Whatever the directory, the output path of an [.mkv] source
    ends in [.mp4] and the output path of an [.mp4] source ends in
    [.h265]: the replacement of the final extension is never skipped. *)
Theorem output_file_has_the_target_extension (p f : string) :
  is_video f = true →
  ∃ out,
    Transcode.output_file (Transcode.init p f) = Some out
    ∧ Py.endswith out (if Py.endswith f ".mkv" then ".mp4" else ".h265") = true.
Proof.
  unfold is_video, Transcode.init. intros Hv.
  destruct (Py.endswith f ".mkv") eqn:Hmkv.
  - eexists. split; [reflexivity|].
    apply (replace_scan_suffix ".mkv" ".mp4"); [done|apply no_overlap_mkv|done|].
    by do 2 apply endswith_prepend.
  - simpl in Hv. rewrite Hv. eexists. split; [reflexivity|].
    apply (replace_scan_suffix ".mp4" ".h265"); [done|apply no_overlap_mp4|done|].
    by do 2 apply endswith_prepend.
Qed.


(** *** Transcode.transcode and transcode_queue *)




Lemma row_eq r r' :
  Queue.path r' = Queue.path r → Queue.filename r' = Queue.filename r →
  Queue.transcode r' = Queue.transcode r → Queue.status r' = Queue.status r →
  r' = r.
Proof. destruct r, r'; simpl; congruence. Qed.

(** X9. However it ends, [transcode_queue] changes nothing in the table
    but the status of entries it was given: the rows stay in number and
    order, each keeps its path, filename and transcode flag, and a row
    whose key is not in the list is exactly as before. *)
Theorem transcode_queue_changes_only_given_statuses
    (DELETE : bool) (ffmpeg : engine) (queue_list : list (string * string))
    (w : World) :
  let w' := (transcode_queue DELETE ffmpeg queue_list w).2 in
  length (queue w') = length (queue w)
  ∧ Forall2 (λ r r',
        Queue.path r' = Queue.path r ∧ Queue.filename r' = Queue.filename r
        ∧ Queue.transcode r' = Queue.transcode r
        ∧ (Queue.key r ∉ queue_list → r' = r))
      (queue w) (queue w').
Proof.
  cbn zeta. destruct (transcode_queue DELETE ffmpeg queue_list w) as [r w'] eqn:Hrun.
  apply touches_transcode_queue in Hrun. cbn [snd]. split.
  - symmetry. by eapply Forall2_length.
  - eapply Forall2_impl; [exact Hrun|].
    intros r0 r' (Hp & Hf & Ht & Hs). repeat split; try done.
    intros Hk. destruct Hs as [Hs|Hs]; [by apply row_eq|done].
Qed.

Lemma table_changed_elem K tbl tbl' r' :
  Forall2 (status_changed_on K) tbl tbl' → r' ∈ tbl' →
  ∃ r, r ∈ tbl ∧ status_changed_on K r r'.
Proof.
  intros Hch [i Hi]%list_elem_of_lookup.
  destruct (Forall2_lookup_r _ _ _ _ _ Hch Hi) as (r & Hr & Hrr').
  exists r. split; [by eapply list_elem_of_lookup_2|done].
Qed.

(** X10. On a working storage, when [transcode_queue] returns normally
    for a list of video file names, every row of an entry of the list is
    done or failed afterwards: none is left queued or active. *)
Theorem transcode_queue_leaves_no_entry_pending
    (DELETE : bool) (ffmpeg : engine) (queue_list : list (string * string))
    (w w' : World) :
  db_ok w = true →
  Forall (λ entry, is_video entry.2 = true) queue_list →
  transcode_queue DELETE ffmpeg queue_list w = (Ret (), w') →
  ∀ r', r' ∈ queue w' → Queue.key r' ∈ queue_list →
        Queue.status r' = "done" ∨ Queue.status r' = "failed".
Proof.
  intros Hdb Hvideo. revert w Hdb.
  induction Hvideo as [|[p f] rest Hv _ IH]; intros w Hdb Hrun r' Hr' Hkey.
  { by apply elem_of_nil in Hkey. }
  simpl in Hv. destruct (init_video p f Hv) as (out & title & Hinit & _).
  destruct (ffmpeg (p +:+ "/" +:+ f) out title (files w)) as [r fs] eqn:Heng.
  cbn [transcode_queue fst snd] in Hrun.
  destruct (Transcode.transcode ffmpeg (Transcode.init p f) w) as [o w1] eqn:Hone.
  destruct (transcode_table ffmpeg p f out title r fs w o w1) as (Hdb1 & Hq1 & _);
    [by rewrite Hinit..|done|done|].
  rewrite Hdb in Hdb1, Hq1.
  unfold mbind, M_bind in Hrun. unfold bind at 1 in Hrun. rewrite Hone in Hrun.
  destruct o as [status| |]; [|done..].
  unfold bind at 1 in Hrun.
  match type of Hrun with context [(if ?b then ?m1 else ?m2) w1] =>
    destruct ((if b then m1 else m2) w1) as [o2 w2] eqn:Hdel;
    assert (Hquiet : quiet (if b then m1 else m2))
      by (destruct b; [apply quiet_delete_original|apply quiet_ret])
  end.
  destruct (Hquiet _ _ _ Hdel) as (Hq2 & Hdb2 & _).
  destruct o2 as [[]| |]; [|done..].
  destruct (decide (Queue.key r' ∈ rest)) as [Hin|Hnotin].
  { eapply (IH w2); [congruence|exact Hrun|done|done]. }
  apply elem_of_cons in Hkey as [Hkey|Hkey]; [|done].
  pose proof (touches_transcode_queue DELETE ffmpeg rest _ _ _ Hrun) as Hch.
  destruct (table_changed_elem _ _ _ _ Hch Hr') as (r2 & Hr2 & Hp & Hf & _ & Hs).
  assert (Hk2 : Queue.key r2 = (p, f)).
  { unfold Queue.key in *. by rewrite <- Hp, <- Hf. }
  destruct Hs as [Hs|Hs]; [|by rewrite Hk2, <- Hkey in Hs].
  rewrite Hs. rewrite Hq2, Hq1 in Hr2.
  rewrite (update_status_of _ _ _ _ _ Hr2 Hk2). destruct r as [| |e]; auto.
  exfalso.
  destruct (transcode_files ffmpeg p f out title (OtherError e) fs w)
    as (o' & w1' & Hrun' & Ho' & _); [by rewrite Hinit..|done|].
  rewrite Hone in Hrun'. by simplify_eq.
Qed.


(** *** The selections and the report *)

(** X11. When the query fails, [retry_failed] logs the error and then
    ends with [UnboundLocalError]: the handler neither returns nor binds
    [failed_status_data], so the caller gets no list, not even an empty
    one. *)
Theorem retry_failed_raises_on_storage_error (w : World) :
  db_ok w = false →
  retry_failed w
  = (Raise (UnboundLocalError "failed_status_data"),
     add_event (Log ERROR "<class 'sqlite3.Error'>")
       (add_event (Log ERROR "SQLite status query failed.") w)).
Proof.
  intros Hdb. unfold retry_failed, mbind, M_bind, bind, Db.select. by rewrite Hdb.
Qed.

(** X12. When the status query fails, [final_results] logs the error
    and ends with [UnboundLocalError] at its first loop: no summary line
    and no failed-file line is written. *)
Theorem final_results_raises_on_storage_error (w : World) :
  db_ok w = false →
  final_results w
  = (Raise (UnboundLocalError "status_data"),
     add_event (Log ERROR "<class 'sqlite3.Error'>")
       (add_event (Log ERROR "SQLite status query failed.") w)).
Proof.
  intros Hdb.
  unfold final_results, mbind, M_bind, bind, Db.select_status_counts. by rewrite Hdb.
Qed.

Lemma read_only_ret {A} (a : A) : read_only (mret a).
Proof. by intros w. Qed.
Lemma read_only_raise {A} e : read_only (@raise A e).
Proof. by intros w. Qed.
Lemma read_only_sys_exit {A} c : read_only (@sys_exit A c).
Proof. by intros w. Qed.
Lemma read_only_log lvl msg : read_only (log lvl msg).
Proof. by intros w. Qed.
Lemma read_only_bind {A B} (m : M A) (k : A → M B) :
  read_only m → (∀ a, read_only (k a)) → read_only (m ≫= k).
Proof.
  intros Hm Hk w. unfold mbind, M_bind, bind.
  destruct (Hm w) as (H1 & H2 & H3). destruct (m w) as [[a| |] w1]; [|done..].
  destruct (Hk a w1) as (H4 & H5 & H6). cbn [snd] in *. repeat split; congruence.
Qed.
Lemma read_only_select cond lim : read_only (Db.select cond lim).
Proof. intros w. unfold Db.select. by destruct (db_ok w) eqn:Hdb. Qed.
Lemma read_only_select_status_counts : read_only Db.select_status_counts.
Proof. intros w. unfold Db.select_status_counts. by destruct (db_ok w) eqn:Hdb. Qed.
Lemma read_only_getitem d k : read_only (getitem d k).
Proof. intros w. unfold getitem. by destruct (d !! k). Qed.
Lemma read_only_for_each {A} (l : list A) (body : A → M unit) :
  (∀ x, read_only (body x)) → read_only (for_each l body).
Proof.
  intros Hbody. induction l as [|x l IH]; cbn [for_each]; [apply read_only_ret|].
  apply read_only_bind; [apply Hbody|]. intros _. apply IH.
Qed.

Create HintDb read_only.
#[local] Hint Resolve read_only_ret read_only_raise read_only_sys_exit read_only_log
  read_only_select read_only_select_status_counts read_only_getitem : read_only.
#[local] Hint Extern 1 (read_only log_exception_sqlite) => apply read_only_log : read_only.

Ltac read_only := repeat first
  [ apply read_only_bind; [|intros ?]
  | apply read_only_for_each; intros ?
  | progress eauto with read_only
  | case_match ].

(** X13. When the query fails, [get_batch] ends the process with exit
    code 1 whatever BATCH is, after the limit was resolved and logged; the
    table and the files are as before. *)
Theorem get_batch_exits_on_storage_error (BATCH : string) (w : World) :
  db_ok w = false →
  ∃ w',
    get_batch unicode BATCH w = (SystemExit 1, w')
    ∧ queue w' = queue w ∧ files w' = files w
    ∧ Log ERROR "SQLite transcode selection query failed." ∈ events w'.
Proof.
  intros Hdb.
  assert (Hro : read_only (get_batch unicode BATCH)) by (unfold get_batch; read_only).
  destruct (Hro w) as (Hq & Hf & _).
  destruct (get_batch unicode BATCH w) as [o w'] eqn:Hrun. cbn [snd] in Hq, Hf.
  exists w'. revert Hrun.
  unfold get_batch, mbind, M_bind, bind, Db.select, log, emit, mret, M_ret, ret,
    log_exception_sqlite, sys_exit.
  destruct (Py.int unicode BATCH) as [n|];
    [destruct (n =? 0); [|destruct (0 <? n); [|destruct (n <? 0)]]|];
    cbn [db_ok add_event]; rewrite Hdb; intros [= <- <-];
    (split; [done|]); (split; [done|]); (split; [done|]);
    cbn [events add_event]; rewrite !elem_of_app, !list_elem_of_singleton; auto.
Qed.

(** X14. The two selections and the report only read: whatever BATCH
    is, whether the storage works or not and however they end, they leave
    the table and the files as they are. *)
Theorem selections_and_report_are_read_only (BATCH : string) (w : World) :
  (queue (get_batch unicode BATCH w).2 = queue w ∧ files (get_batch unicode BATCH w).2 = files w)
  ∧ (queue (retry_failed w).2 = queue w ∧ files (retry_failed w).2 = files w)
  ∧ (queue (final_results w).2 = queue w ∧ files (final_results w).2 = files w).
Proof.
  assert (H1 : read_only (get_batch unicode BATCH)) by (unfold get_batch; read_only).
  assert (H2 : read_only retry_failed) by (unfold retry_failed; read_only).
  assert (H3 : read_only final_results) by (unfold final_results; read_only).
  destruct (H1 w) as (? & ? & _), (H2 w) as (? & ? & _), (H3 w) as (? & ? & _).
  done.
Qed.


(** *** The batch insert and the scan *)

Lemma insert_scan_results_queue rows w :
  queue (insert_scan_results rows w).2
  = if db_ok w then inserted rows (queue w) else queue w.
Proof.
  rewrite insert_scan_results_run. cbn zeta. unfold inserted.
  destruct (db_ok w); [|done].
  by destruct (Queue.executemany_insert rows (queue w)) as [tbl []].
Qed.

Lemma insert_scan_results_frame rows w :
  files (insert_scan_results rows w).2 = files w
  ∧ db_ok (insert_scan_results rows w).2 = db_ok w
  ∧ ((insert_scan_results rows w).1 ≠ Ret () →
     queue (insert_scan_results rows w).2 = queue w)
  ∧ (db_ok w = false → (insert_scan_results rows w).1 = SystemExit 1).
Proof.
  rewrite insert_scan_results_run. cbn zeta. destruct (db_ok w) eqn:Hdb; [|done].
  by destruct (Queue.executemany_insert rows (queue w)) as [tbl []].
Qed.

Lemma executemany_insert_fresh rows tbl :
  Forall (λ r, Queue.encodable r = true) rows →
  NoDup (Queue.key <$> (tbl ++ rows)) →
  Queue.executemany_insert rows tbl = (tbl ++ rows, Queue.Executed).
Proof.
  intros Henc. revert tbl. induction Henc as [|r rows Hr _ IH]; intros tbl Hnd.
  - by rewrite app_nil_r.
  - cbn [Queue.executemany_insert]. rewrite Hr. cbn [negb].
    assert (Hfresh : Queue.violates_unique r tbl = false).
    { apply not_true_iff_false. rewrite violates_unique_spec.
      rewrite fmap_app, fmap_cons in Hnd. apply NoDup_app in Hnd as (_ & Hdisj & _).
      intros Hin. apply (Hdisj _ Hin). apply list_elem_of_here. }
    rewrite Hfresh, IH; rewrite <- app_assoc; done.
Qed.

(** X15. A batch of rows that can be bound (their text is well-formed
    UTF-8) and whose keys are new to the table and pairwise distinct is
    inserted whole, in order, after the rows that were there, and no
    error is logged. *)
Theorem insert_scan_results_inserts_fresh_batch
    (insert_list : list Queue.row) (w : World) :
  db_ok w = true →
  Forall (λ r, Queue.encodable r = true) insert_list →
  NoDup (Queue.key <$> (queue w ++ insert_list)) →
  ∃ w',
    insert_scan_results insert_list w = (Ret (), w')
    ∧ queue w' = queue w ++ insert_list
    ∧ files w' = files w
    ∧ events w'
      = events w
        ++ [Log DEBUG "Inserting scanned results into SQLite database.";
            Log INFO ("Successfully inserted " +:+ pretty (length insert_list)
                      +:+ " entries into SQLite 'queue' table.")].
Proof.
  intros Hdb Henc Hnd.
  rewrite insert_scan_results_run, Hdb, executemany_insert_fresh by done.
  eexists. split; [reflexivity|]. cbn [queue files events add_event set_queue].
  by rewrite <- app_assoc.
Qed.

Lemma executemany_insert_keeps r rows tbl :
  r ∈ tbl → r ∈ (Queue.executemany_insert rows tbl).1.
Proof.
  revert tbl. induction rows as [|r' rows IH]; intros tbl Hr;
    cbn [Queue.executemany_insert]; [done|].
  destruct (negb (Queue.encodable r')); [done|].
  destruct (Queue.violates_unique r' tbl); [done|].
  apply IH, elem_of_app. by left.
Qed.

(** A batch that was inserted is rejected at its first row when it is
    inserted again. *)
Lemma inserted_again rows tbl : inserted rows (inserted rows tbl) = inserted rows tbl.
Proof.
  unfold inserted at 2 3.
  destruct (Queue.executemany_insert rows tbl) as [tbl1 ending] eqn:Hins.
  assert (Hdone : ending ≠ Queue.Unencodable → inserted rows tbl1 = tbl1).
  { intros Hending. destruct rows as [|r rows]; [done|].
    cbn [Queue.executemany_insert] in Hins.
    destruct (Queue.encodable r) eqn:Henc; cbn [negb] in Hins; [|by simplify_eq].
    assert (Hnow : Queue.violates_unique r tbl1 = true).
    { destruct (Queue.violates_unique r tbl) eqn:Hdup; [by simplify_eq|].
      apply violates_unique_spec, list_elem_of_fmap_2.
      replace tbl1 with (Queue.executemany_insert rows (tbl ++ [r])).1
        by (by rewrite Hins).
      apply executemany_insert_keeps, elem_of_app. right. apply list_elem_of_here. }
    unfold inserted. cbn [Queue.executemany_insert]. by rewrite Henc, Hnow. }
  destruct ending; [by apply Hdone..|].
  unfold inserted. by rewrite Hins.
Qed.

(** X16. Inserting the same batch a second time changes nothing: the
    table after the second call is the table after the first, whatever
    the batch, the table and the state of the storage. *)
Theorem insert_scan_results_twice (insert_list : list Queue.row) (w : World) :
  let w1 := (insert_scan_results insert_list w).2 in
  queue (insert_scan_results insert_list w1).2 = queue w1.
Proof.
  cbn zeta. rewrite !insert_scan_results_queue.
  assert (Hdb : db_ok (insert_scan_results insert_list w).2 = db_ok w).
  { rewrite insert_scan_results_run. cbn zeta. destruct (db_ok w) eqn:Hok; [|done].
    by destruct (Queue.executemany_insert insert_list (queue w)) as [tbl []]. }
  rewrite Hdb. destruct (db_ok w); [apply inserted_again|done].
Qed.

(** X17. Whatever happened, the last record [insert_scan_results] logs
    says that the whole batch was inserted: the [finally] clause writes
    the length of the batch after a duplicate stopped the insert, and
    after a storage error on the way to exit code 1 with the table
    unchanged. *)
Theorem insert_scan_results_always_logs_success
    (insert_list : list Queue.row) (w : World) :
  let w' := (insert_scan_results insert_list w).2 in
  last (events w')
  = Some (Log INFO ("Successfully inserted " +:+ pretty (length insert_list)
                    +:+ " entries into SQLite 'queue' table."))
  ∧ (db_ok w = false →
     (insert_scan_results insert_list w).1 = SystemExit 1 ∧ queue w' = queue w).
Proof.
  cbn zeta. rewrite insert_scan_results_run. cbn zeta. destruct (db_ok w).
  - destruct (Queue.executemany_insert insert_list (queue w)) as [tbl []];
      cbn [snd events add_event]; (split; [apply last_snoc|done]).
  - cbn [snd fst events queue add_event]. split; [apply last_snoc|done].
Qed.

(** What a batch insert does, by its first row that is not inserted. *)
Lemma insert_scan_results_effect rows w :
  db_ok w = true →
  NoDup (Queue.key <$> queue w) →
  ∃ committed rest w',
    rows = committed ++ rest
    ∧ NoDup (Queue.key <$> (queue w ++ committed))
    ∧ match rest with
      | [] => insert_scan_results rows w = (Ret (), w') ∧ queue w' = queue w ++ rows
      | d :: _ =>
          if Queue.encodable d then
            insert_scan_results rows w = (Ret (), w')
            ∧ queue w' = queue w ++ committed
            ∧ Queue.key d ∈ Queue.key <$> (queue w ++ committed)
            ∧ Log ERROR "Duplicate filename found in SQLite table." ∈ events w'
          else
            insert_scan_results rows w = (Raise UnicodeEncodeError, w')
            ∧ queue w' = queue w
      end.
Proof.
  intros Hdb Hnd.
  destruct (executemany_insert_prefix rows (queue w) Hnd)
    as (committed & rest & Hsplit & Htbl & Hnd' & _ & Hrest).
  exists committed, rest. rewrite insert_scan_results_run. cbn zeta. rewrite Hdb.
  destruct (Queue.executemany_insert rows (queue w)) as [tbl ending].
  cbn [fst snd] in Htbl, Hrest. subst tbl.
  destruct rest as [|d rest].
  - subst ending. rewrite app_nil_r in Hsplit. subst committed.
    eexists. split; [by rewrite app_nil_r|]. split; [done|]. by split.
  - destruct Hrest as [[Hd ->]|(Hd & -> & Hkey)]; rewrite Hd;
      (eexists; split; [done|]; split; [done|]); [by split|].
    split; [done|]. split; [done|]. split; [done|].
    cbn [events add_event]. rewrite !elem_of_app, !list_elem_of_singleton. auto.
Qed.

Lemma pure_result_ret {A} (a : A) : pure_result (mret a).
Proof. by intros w w0. Qed.
Lemma pure_result_raise {A} e : pure_result (@raise A e).
Proof. by intros w w0. Qed.
Lemma pure_result_log lvl msg : pure_result (log lvl msg).
Proof. by intros w w0. Qed.
Lemma pure_result_bind {A B} (m : M A) (k : A → M B) :
  pure_result m → (∀ a, pure_result (k a)) → pure_result (m ≫= k).
Proof.
  intros Hm Hk w w0. unfold mbind, M_bind, bind.
  pose proof (Hm w w0) as H1.
  destruct (m w) as [o w1], (m w0) as [o0 w2]. cbn [fst] in H1. subst o0.
  destruct o; [apply Hk|done..].
Qed.

Create HintDb pure_result.
#[local] Hint Resolve pure_result_ret pure_result_raise pure_result_log : pure_result.
Ltac pure_result := repeat first
  [ apply pure_result_bind; [|intros ?] | progress eauto with pure_result | case_match ].

Lemma read_only_verify_metadata dt file : read_only (verify_metadata unicode dt file).
Proof. unfold verify_metadata. read_only. Qed.
Lemma pure_result_verify_metadata dt file : pure_result (verify_metadata unicode dt file).
Proof. unfold verify_metadata. pure_result. Qed.

Lemma read_only_read_metadata cid dt p f : read_only (read_metadata unicode cid dt p f).
Proof. unfold read_metadata. pose proof (read_only_verify_metadata dt). read_only. Qed.
Lemma pure_result_read_metadata cid dt p f : pure_result (read_metadata unicode cid dt p f).
Proof. unfold read_metadata. pose proof (pure_result_verify_metadata dt). pure_result. Qed.

Lemma read_only_check_metadata cid dt l : read_only (check_metadata unicode cid dt l).
Proof.
  induction l as [|[p f] l IH]; cbn [check_metadata]; [apply read_only_ret|].
  pose proof (read_only_read_metadata cid dt). read_only.
Qed.
Lemma pure_result_check_metadata cid dt l : pure_result (check_metadata unicode cid dt l).
Proof.
  induction l as [|[p f] l IH]; cbn [check_metadata]; [apply pure_result_ret|].
  pose proof (pure_result_read_metadata cid dt). pure_result.
Qed.

Lemma for_each_log_run {A} (l : list A) (body : A → M unit) w :
  (∀ x, ∃ lvl msg, body x = log lvl msg) →
  ∃ w', for_each l body w = (Ret (), w')
        ∧ queue w' = queue w ∧ files w' = files w ∧ db_ok w' = db_ok w.
Proof.
  intros Hbody. revert w. induction l as [|x l IH]; intros w; [by eexists|].
  destruct (Hbody x) as (lvl & msg & Hx).
  destruct (IH (add_event (Log lvl msg) w)) as (w' & Hrun & ? & ? & ?).
  exists w'. split; [|done]. cbn [for_each]. rewrite Hx.
  by erewrite run_bind by reflexivity.
Qed.

(** [scan_directory], after the walk and its log lines. *)
Lemma scan_directory_unfold walk w :
  let video_list := found_videos (walk "/mnt") in
  ∃ w3,
    queue w3 = queue w ∧ files w3 = files w ∧ db_ok w3 = db_ok w
    ∧ ∀ cid dt,
        scan_directory unicode cid dt walk w
        = if decide (length video_list = 0%nat)
          then (SystemExit 1,
                add_event (Log WARNING "Empty scan results. Is the volume mounted? Exiting.") w3)
          else (check_metadata unicode cid dt video_list ≫= insert_scan_results)
                 (add_event (Log DEBUG "Checking metadata on video files.") w3).
Proof.
  cbn zeta.
  destruct (for_each_log_run (found_videos (walk "/mnt"))
              (λ '(root, filename),
                 log INFO ("Found '" +:+ root +:+ "/" +:+ filename +:+ "'."))
              (add_event (Log INFO "Beginning scan...") w)) as (w2 & Hrun & Hq & Hf & Hdb).
  { intros [root filename]. eauto. }
  eexists (add_event _ w2). split; [exact Hq|]. split; [exact Hf|]. split; [exact Hdb|].
  intros cid dt. unfold scan_directory. fold (found_videos (walk "/mnt")).
  erewrite run_bind by reflexivity.
  erewrite run_bind by exact Hrun.
  erewrite run_bind by reflexivity.
  destruct (decide (length (found_videos (walk "/mnt")) = 0%nat)); [|by erewrite run_bind by reflexivity].
  by erewrite run_bind by reflexivity.
Qed.


Lemma check_metadata_keys cid dt l :
  returns (λ rows, Queue.key <$> rows = l) (check_metadata unicode cid dt l).
Proof.
  induction l as [|[p f] l IH]; cbn [check_metadata]; [apply returns_ret; reflexivity|].
  eapply (returns_bind (λ r, Queue.key r = (p, f))).
  - case_match.
    + eapply returns_bind; [apply returns_true|]. intros ? _. by apply returns_ret.
    + eapply returns_bind; [apply read_metadata_verdict|].
      intros [[fn t] st] [Hfn _]. simpl in Hfn. subst fn. by apply returns_ret.
  - intros r Hr. eapply returns_bind; [exact IH|]. intros rows Hrows.
    apply returns_ret. by rewrite fmap_cons, Hr, Hrows.
Qed.

Lemma inserted_appends rows tbl :
  ∃ added, inserted rows tbl = tbl ++ added ∧ added `prefix_of` rows.
Proof.
  assert (Hraw : ∀ rows tbl, ∃ committed,
            (Queue.executemany_insert rows tbl).1 = tbl ++ committed
            ∧ committed `prefix_of` rows).
  { clear. intros rows. induction rows as [|r rows IH]; intros tbl.
    - exists []. simpl. by rewrite app_nil_r.
    - cbn [Queue.executemany_insert].
      destruct (negb (Queue.encodable r));
        [|destruct (Queue.violates_unique r tbl)];
        [exists []; simpl; rewrite app_nil_r; split; [done|apply prefix_nil]..|].
      destruct (IH (tbl ++ [r])) as (committed & -> & Hpre).
      exists (r :: committed). rewrite <- app_assoc. split; [done|].
      by apply prefix_cons. }
  unfold inserted. destruct (Hraw rows tbl) as (committed & Hins & Hpre).
  destruct (Queue.executemany_insert rows tbl) as [tbl1 []]; cbn [fst] in Hins;
    [by exists committed..|].
  exists []. rewrite app_nil_r. split; [done|apply prefix_nil].
Qed.

(** What a scan does to the world: nothing to the files and the storage
    flag; the table is kept as it is, or it is what the batch insert of
    the classified rows makes of it. *)
Lemma scan_directory_effect cid dt walk w :
  let video_list := found_videos (walk "/mnt") in
  let o := (scan_directory unicode cid dt walk w).1 in
  let w' := (scan_directory unicode cid dt walk w).2 in
  files w' = files w ∧ db_ok w' = db_ok w
  ∧ (o ≠ Ret () ∧ queue w' = queue w
     ∨ ∃ rows,
         video_list ≠ [] ∧ db_ok w = true
         ∧ (check_metadata unicode cid dt video_list w).1 = Ret rows
         ∧ queue w' = inserted rows (queue w)
         ∧ (o ≠ Ret () → queue w' = queue w)).
Proof.
  cbn zeta. destruct (scan_directory_unfold walk w) as (w3 & Hq & Hf & Hdb & Hrun).
  rewrite Hrun. clear Hrun.
  destruct (decide (length (found_videos (walk "/mnt")) = 0%nat)) as [Hlen|Hlen].
  { cbn [fst snd files db_ok queue add_event]. split; [done|]. split; [done|]. by left. }
  set (w4 := add_event _ w3).
  unfold mbind, M_bind, bind.
  pose proof (read_only_check_metadata cid dt (found_videos (walk "/mnt")) w4) as (Hq5 & Hf5 & Hdb5).
  pose proof (pure_result_check_metadata cid dt (found_videos (walk "/mnt")) w4 w) as Hpure.
  destruct (check_metadata unicode cid dt (found_videos (walk "/mnt")) w4) as [[rows|e|c] w5];
    cbn [fst snd] in *.
  - destruct (insert_scan_results_frame rows w5) as (Hfi & Hdbi & Hoi & Hexit).
    pose proof (insert_scan_results_queue rows w5) as Hqi.
    destruct (insert_scan_results rows w5) as [o6 w6]. cbn [fst snd] in *.
    assert (Hdb5' : db_ok w5 = db_ok w) by (by rewrite Hdb5).
    assert (Hq5' : queue w5 = queue w) by (by rewrite Hq5).
    rewrite Hdb5', Hq5' in Hqi. rewrite Hq5' in Hoi.
    split; [by rewrite Hfi, Hf5|]. split; [by rewrite Hdbi|].
    destruct (db_ok w) eqn:Hok.
    + right. exists rows. repeat split; try done.
      intros Hnil. by rewrite Hnil in Hlen.
    + left. split; [|done]. rewrite Hexit by done. done.
  - split; [by rewrite Hf5|]. split; [by rewrite Hdb5|]. left. split; [done|]. by rewrite Hq5.
  - split; [by rewrite Hf5|]. split; [by rewrite Hdb5|]. left. split; [done|]. by rewrite Hq5.
Qed.

(** X18. A scan never removes or changes a row and never touches the
    files: the table afterwards is the table before followed by new
    rows, these are rows of video files found by the walk, in the order of
    the walk, and when the scan does not return normally the table is
    unchanged. *)
Theorem scan_directory_only_appends
    (exiftool_CompressorID exiftool_DocType : string → exn + string)
    (os_walk : string → list (string * list string)) (w : World) :
  let o := (scan_directory unicode exiftool_CompressorID exiftool_DocType os_walk w).1 in
  let w' := (scan_directory unicode exiftool_CompressorID exiftool_DocType os_walk w).2 in
  files w' = files w
  ∧ (∃ added,
       queue w' = queue w ++ added
       ∧ (Queue.key <$> added) `prefix_of` found_videos (os_walk "/mnt"))
  ∧ (o ≠ Ret () → queue w' = queue w).
Proof.
  cbn zeta.
  destruct (scan_directory_effect exiftool_CompressorID exiftool_DocType os_walk w)
    as (Hf & _ & [[Ho Hq]|(rows & _ & _ & Hrows & Hq & Ho)]).
  - split; [done|]. split; [|done]. exists []. rewrite app_nil_r. split; [done|].
    apply prefix_nil.
  - split; [done|].
    destruct (inserted_appends rows (queue w)) as (added & Hins & [rest Hsplit]).
    assert (Hkeys : Queue.key <$> rows = found_videos (os_walk "/mnt")).
    { destruct (check_metadata unicode _ _ _ w) as [o1 w1] eqn:Hcm. cbn [fst] in Hrows. subst o1.
      by eapply check_metadata_keys. }
    split; [|done].
    exists added. split; [by rewrite Hq, Hins|].
    rewrite <- Hkeys, Hsplit, fmap_app. by apply prefix_app_r.
Qed.


Lemma found_videos_elem walk entry :
  entry ∈ found_videos walk
  ↔ ∃ files, (entry.1, files) ∈ walk ∧ entry.2 ∈ files ∧ is_video entry.2 = true.
Proof.
  unfold found_videos. rewrite list_elem_of_bind. split.
  - intros ([root files] & Hin & Hwalk).
    apply list_elem_of_fmap in Hin as (f & -> & Hf).
    apply list_elem_of_In, List.filter_In in Hf as [Hf Hv].
    exists files. simpl. split; [done|]. split; [by apply list_elem_of_In|done].
  - intros (files & Hwalk & Hf & Hv). exists (entry.1, files). split; [|done].
    apply list_elem_of_fmap. exists entry.2. split; [by destruct entry|].
    apply list_elem_of_In, List.filter_In. split; [by apply list_elem_of_In|done].
Qed.

(** X19. When the walk finds no file with one of the two extensions,
    the scan ends the process with exit code 1 after a warning; the table
    and the files are as before, and no probe was consulted (the outcome is
    the same for all probes). *)
Theorem scan_directory_exits_on_empty_scan
    (exiftool_CompressorID exiftool_DocType : string → exn + string)
    (os_walk : string → list (string * list string)) (w : World) :
  (∀ root files filename,
     (root, files) ∈ os_walk "/mnt" → filename ∈ files → is_video filename = false) →
  ∃ w',
    (∀ cid dt, scan_directory unicode cid dt os_walk w = (SystemExit 1, w'))
    ∧ queue w' = queue w ∧ files w' = files w
    ∧ last (events w')
      = Some (Log WARNING "Empty scan results. Is the volume mounted? Exiting.").
Proof.
  intros Hnone.
  assert (Hempty : found_videos (os_walk "/mnt") = []).
  { apply elem_of_nil_inv. intros [root f] (files & Hwalk & Hf & Hv)%found_videos_elem.
    simpl in *. by rewrite (Hnone root files f) in Hv. }
  destruct (scan_directory_unfold os_walk w) as (w3 & Hq & Hf & Hdb & Hrun).
  eexists. split; [|split; [|split]].
  - intros cid dt. rewrite Hrun, Hempty. reflexivity.
  - done.
  - done.
  - cbn [events add_event]. apply last_snoc.
Qed.

Lemma check_metadata_cons_mkv cid dt p f l w :
  Py.endswith f ".mkv" = true →
  check_metadata unicode cid dt ((p, f) :: l) w
  = match check_metadata unicode cid dt l
            (add_event (Log INFO ("'" +:+ p +:+ "/" +:+ f +:+ "' needs to be transcoded.")) w)
    with
    | (Ret rows, w1) => (Ret (Queue.Row p f "Y" "queued" :: rows), w1)
    | (Raise e, w1) => (Raise e, w1)
    | (SystemExit c, w1) => (SystemExit c, w1)
    end.
Proof.
  intros Hf. cbn [check_metadata]. rewrite Hf.
  unfold mbind, M_bind, bind, log, emit, mret, M_ret, ret.
  by destruct (check_metadata unicode cid dt l _) as [[rows| |] w1].
Qed.

Lemma check_metadata_mkv cid dt cid' dt' l w :
  Forall (λ entry, Py.endswith entry.2 ".mkv" = true) l →
  check_metadata unicode cid dt l w = check_metadata unicode cid' dt' l w.
Proof.
  intros Hmkv. revert w. induction Hmkv as [|[p f] l Hf _ IH]; intros w; [done|].
  simpl in Hf. by rewrite !check_metadata_cons_mkv, IH.
Qed.

(** X20. Files named [.mkv] are queued by their name alone: when every
    video file the walk finds ends in [.mkv], the scan is the same
    whatever the two probes would answer, and every row it adds is to be
    transcoded and queued. *)
Theorem scan_directory_queues_mkv_without_probing
    (cid dt cid' dt' : string → exn + string)
    (os_walk : string → list (string * list string)) (w : World) :
  (∀ root files filename,
     (root, files) ∈ os_walk "/mnt" → filename ∈ files →
     is_video filename = true → Py.endswith filename ".mkv" = true) →
  scan_directory unicode cid dt os_walk w = scan_directory unicode cid' dt' os_walk w
  ∧ ∃ added,
      queue (scan_directory unicode cid dt os_walk w).2 = queue w ++ added
      ∧ Forall (λ r, Queue.transcode r = "Y" ∧ Queue.status r = "queued") added.
Proof.
  intros Hall.
  assert (Hmkv : Forall (λ entry : string * string, Py.endswith entry.2 ".mkv" = true)
                   (found_videos (os_walk "/mnt"))).
  { apply Forall_forall. intros [root f] (files & Hwalk & Hf & Hv)%found_videos_elem.
    simpl in *. by eapply Hall. }
  split.
  - destruct (scan_directory_unfold os_walk w) as (w3 & _ & _ & _ & Hrun).
    rewrite !Hrun. case_decide; [done|].
    unfold mbind, M_bind, bind. by rewrite (check_metadata_mkv cid dt cid' dt').
  - destruct (scan_directory_effect cid dt os_walk w)
      as (_ & _ & [[_ Hq]|(rows & _ & _ & Hrows & Hq & _)]).
    { exists []. by rewrite app_nil_r. }
    destruct (inserted_appends rows (queue w)) as (committed & Hins & [rest Hsplit]).
    exists committed. split; [by rewrite Hq, Hins|].
    assert (Hall_rows : Forall (λ r, Queue.transcode r = "Y" ∧ Queue.status r = "queued") rows).
    { clear Hq Hins Hsplit. revert rows w Hrows.
      induction Hmkv as [|[p f] l Hf _ IH]; intros rows w.
      - by intros [= <-].
      - simpl in Hf. rewrite check_metadata_cons_mkv by done.
        destruct (check_metadata unicode cid dt l _) as [[rows'| |] w1] eqn:Hl; [|done..].
        intros [= <-]. constructor; [done|]. eapply IH. by rewrite Hl. }
    rewrite Hsplit in Hall_rows. by apply Forall_app in Hall_rows as [? _].
Qed.

(** The table after a scan, as a function of the table before. *)
Lemma scan_directory_table cid dt walk w :
  let video_list := found_videos (walk "/mnt") in
  queue (scan_directory unicode cid dt walk w).2
  = match video_list, (check_metadata unicode cid dt video_list w).1 with
    | _ :: _, Ret rows => if db_ok w then inserted rows (queue w) else queue w
    | _, _ => queue w
    end.
Proof.
  cbn zeta. destruct (scan_directory_unfold walk w) as (w3 & Hq3 & _ & Hdb3 & Hrun).
  rewrite Hrun. clear Hrun.
  destruct (found_videos (walk "/mnt")) as [|v l] eqn:Hvl; [done|].
  rewrite decide_False by done.
  unfold mbind, M_bind, bind.
  pose proof (pure_result_check_metadata cid dt (v :: l)
                (add_event (Log DEBUG "Checking metadata on video files.") w3) w) as Hpure.
  pose proof (read_only_check_metadata cid dt (v :: l)
                (add_event (Log DEBUG "Checking metadata on video files.") w3))
    as (Hq5 & _ & Hdb5).
  destruct (check_metadata unicode cid dt (v :: l) (add_event _ w3)) as [o5 w5].
  cbn [fst snd queue db_ok add_event] in *. rewrite <- Hpure.
  destruct o5 as [rows| |]; cbn [snd]; [|congruence..].
  rewrite insert_scan_results_queue. by rewrite Hdb5, Hq5, Hdb3, Hq3.
Qed.

(** X21. Scanning again, with the same listing and the same answers of
    the probes, changes nothing: the table after the second scan is the
    table after the first. *)
Theorem scan_directory_twice
    (exiftool_CompressorID exiftool_DocType : string → exn + string)
    (os_walk : string → list (string * list string)) (w : World) :
  let w1 := (scan_directory unicode exiftool_CompressorID exiftool_DocType os_walk w).2 in
  queue (scan_directory unicode exiftool_CompressorID exiftool_DocType os_walk w1).2 = queue w1.
Proof.
  cbn zeta.
  set (scan := scan_directory unicode exiftool_CompressorID exiftool_DocType os_walk).
  destruct (scan_directory_effect exiftool_CompressorID exiftool_DocType os_walk w)
    as (_ & Hdb1 & _).
  pose proof (scan_directory_table exiftool_CompressorID exiftool_DocType os_walk w) as H1.
  pose proof (scan_directory_table exiftool_CompressorID exiftool_DocType os_walk (scan w).2)
    as H2.
  cbn zeta in H1, H2. fold scan in Hdb1, H1, H2. rewrite H2. clear H2.
  rewrite Hdb1. revert H1.
  destruct (found_videos (os_walk "/mnt")) as [|v l]; [done|].
  rewrite (pure_result_check_metadata _ _ _ (scan w).2 w).
  destruct (check_metadata unicode _ _ (v :: l) w).1 as [rows| |]; [|done..].
  destruct (db_ok w); [|done].
  intros ->. apply inserted_again.
Qed.


(** *** The classifier, the size report, the metadata update, the check *)

(** X22. All the classifier can do: it never touches the table or the
    files and never exits; what it returns is the file name it was given
    with one of the three pairs (N, skipped), (N, unknown), (Y, queued);
    and when it fails, the exception is that of a probe: of the compressor
    probe when it is not the [CalledProcessError] that the classifier
    handles, or of the document-type probe, whatever it is, after the
    compressor probe answered with an empty tag. *)
Theorem read_metadata_outcomes
    (exiftool_CompressorID exiftool_DocType : string → exn + string)
    (path filename : string) (w : World) :
  let video_file := path +:+ "/" +:+ filename in
  let o := (read_metadata unicode exiftool_CompressorID exiftool_DocType path filename w).1 in
  let w' := (read_metadata unicode exiftool_CompressorID exiftool_DocType path filename w).2 in
  queue w' = queue w ∧ files w' = files w
  ∧ match o with
    | Ret v =>
        v.1.1 = filename
        ∧ (v.1.2, v.2) ∈ [("N", "skipped"); ("N", "unknown"); ("Y", "queued")]
    | Raise e =>
        exiftool_CompressorID video_file = inl e ∧ e ≠ CalledProcessError
        ∨ (∃ out, exiftool_CompressorID video_file = inr out
                  ∧ Py.lower_strip unicode out = EmptyString)
          ∧ exiftool_DocType video_file = inl e
    | SystemExit _ => False
    end.
Proof.
  cbn zeta.
  destruct (read_only_read_metadata exiftool_CompressorID exiftool_DocType path filename w)
    as (Hq & Hf & _).
  split; [done|]. split; [done|]. clear Hq Hf.
  unfold read_metadata, verify_metadata, mbind, M_bind, bind, log, emit, mret, M_ret,
    ret, raise.
  destruct (exiftool_CompressorID (path +:+ "/" +:+ filename)) as [e|out]; cbn [fst snd].
  - destruct e; cbn [fst snd]; try (by left);
      split; [done|]; rewrite !elem_of_cons; auto.
  - destruct (decide (Py.lower_strip unicode out = "hvc1")) as [Htag|Htag]; cbn [fst snd].
    { split; [done|]. rewrite !elem_of_cons. auto. }
    destruct (decide (Py.lower_strip unicode out = EmptyString)) as [Hempty|Hempty];
      cbn [fst snd].
    + destruct (exiftool_DocType (path +:+ "/" +:+ filename)) as [e2|out2]; cbn [fst snd].
      * right. split; [by exists out|done].
      * destruct (decide (Py.lower_strip unicode out2 = "matroska")); cbn [fst snd];
          (split; [done|]); rewrite !elem_of_cons; auto.
    + split; [done|]. rewrite !elem_of_cons. auto.
Qed.

Section MetadataFacts.
Variable exiftool_update
  : string → string → gmap string N → option exn * gmap string N.

(** The loop of [update_metadata]: it goes through the whole list unless
    a run of the tool raises an exception that is not handled. *)
Lemma update_metadata_loop l w :
  ∃ o w', for_each l (update_metadata_file exiftool_update) w = (o, w')
        ∧ queue w' = queue w ∧ db_ok w' = db_ok w
        ∧ match o with
          | Ret _ => length (events w') = (length (events w) + length l)%nat
          | Raise e =>
              e ≠ CalledProcessError
              ∧ ∃ title file fs, (exiftool_update title file fs).1 = Some e
          | SystemExit _ => False
          end
        ∧ ∀ other,
            (∀ title file fs, other ≠ file →
               (exiftool_update title file fs).2 !! other = fs !! other) →
            (∀ entry, entry ∈ l → Py.endswith entry.2 ".mp4" = true →
                      other ≠ entry.1 +:+ "/" +:+ entry.2) →
            files w' !! other = files w !! other.
Proof.
  revert w. induction l as [|file l IH]; intros w.
  - exists (Ret ()), w. split; [done|]. repeat split; try done; simpl; lia.
  - cbn [for_each]. unfold mbind, M_bind. unfold bind at 1.
    unfold update_metadata_file at 1.
    unfold run_exiftool_update, mbind, M_bind, bind, log, emit, raise.
    destruct (Py.endswith file.2 ".mp4") eqn:Hmp4.
    + destruct (exiftool_update (Py.removesuffix file.2 ".mp4")
                  (file.1 +:+ "/" +:+ file.2) (files w)) as [raised fs] eqn:Htool.
      assert (Hkeep : ∀ other,
                (∀ title file fs, other ≠ file →
                   (exiftool_update title file fs).2 !! other = fs !! other) →
                (∀ entry, entry ∈ file :: l → Py.endswith entry.2 ".mp4" = true →
                          other ≠ entry.1 +:+ "/" +:+ entry.2) →
                fs !! other = files w !! other).
      { intros other Hother Hrows.
        rewrite <- (Hother (Py.removesuffix file.2 ".mp4")
                      (file.1 +:+ "/" +:+ file.2) (files w)); [by rewrite Htool|].
        apply Hrows; [apply list_elem_of_here|done]. }
      assert (Hloop : ∀ lvl msg,
        ∃ o w',
          for_each l (update_metadata_file exiftool_update)
            (add_event (Log lvl msg) (set_files fs w)) = (o, w')
          ∧ queue w' = queue w ∧ db_ok w' = db_ok w
          ∧ match o with
            | Ret _ => length (events w') = (length (events w) + length (file :: l))%nat
            | Raise e =>
                e ≠ CalledProcessError
                ∧ ∃ title file fs, (exiftool_update title file fs).1 = Some e
            | SystemExit _ => False
            end
          ∧ ∀ other,
              (∀ title file fs, other ≠ file →
                 (exiftool_update title file fs).2 !! other = fs !! other) →
              (∀ entry, entry ∈ file :: l → Py.endswith entry.2 ".mp4" = true →
                        other ≠ entry.1 +:+ "/" +:+ entry.2) →
              files w' !! other = files w !! other).
      { intros lvl msg.
        destruct (IH (add_event (Log lvl msg) (set_files fs w)))
          as (o & w' & Hrun & Hq & Hdb & Ho & Hf).
        exists o, w'. split; [exact Hrun|]. split; [done|]. split; [done|]. split.
        - destruct o; [|done..]. rewrite Ho. cbn [events add_event set_files].
          rewrite length_app. simpl. lia.
        - intros other Hother Hrows. rewrite Hf; [by apply Hkeep|done|].
          intros entry Hentry. apply Hrows. by apply list_elem_of_further. }
      assert (Hraise : ∀ e, raised = Some e → e ≠ CalledProcessError →
        ∃ o w',
          (Raise e : result (), set_files fs w) = (o, w')
          ∧ queue w' = queue w ∧ db_ok w' = db_ok w
          ∧ match o with
            | Ret _ => length (events w') = (length (events w) + length (file :: l))%nat
            | Raise e =>
                e ≠ CalledProcessError
                ∧ ∃ title file fs, (exiftool_update title file fs).1 = Some e
            | SystemExit _ => False
            end
          ∧ ∀ other,
              (∀ title file fs, other ≠ file →
                 (exiftool_update title file fs).2 !! other = fs !! other) →
              (∀ entry, entry ∈ file :: l → Py.endswith entry.2 ".mp4" = true →
                        other ≠ entry.1 +:+ "/" +:+ entry.2) →
              files w' !! other = files w !! other).
      { intros e -> He. eexists _, _. split; [reflexivity|].
        split; [done|]. split; [done|]. split.
        - split; [done|]. eexists _, _, _. by rewrite Htool.
        - intros other Hother Hrows. by apply Hkeep. }
      destruct raised as [e|]; [|apply Hloop].
      destruct e; first [apply Hloop | by apply Hraise].
    + destruct (IH (add_event (Log WARNING ("'" +:+ (file.1 +:+ "/" +:+ file.2)
                      +:+ "' is not MP4. Transcode to update the metadata.")) w))
        as (o & w' & Hrun & Hq & Hdb & Ho & Hf).
      exists o, w'. split; [exact Hrun|]. split; [done|]. split; [done|]. split.
      * destruct o; [|done..]. rewrite Ho. cbn [events add_event].
        rewrite length_app. simpl. lia.
      * intros other Hother Hrows. rewrite Hf; [done|done|].
        intros entry Hentry. apply Hrows. by apply list_elem_of_further.
Qed.

(** X23. On a working storage [update_metadata] leaves the table as it
    is and goes through every row: it returns normally, with one line
    logged for the retrieval and exactly one per row, whether the tool
    succeeds or exits with an error on a file; only an exception of the
    tool other than [CalledProcessError] ends it early, and propagates.
    On a broken storage it ends the process with exit code 1 before the
    tool is run on any file. *)
Theorem update_metadata_goes_through_every_row (w : World) :
  if db_ok w then
    ∃ o w', update_metadata exiftool_update w = (o, w')
          ∧ queue w' = queue w
          ∧ match o with
            | Ret _ =>
                length (events w') = (length (events w) + 1 + length (queue w))%nat
            | Raise e =>
                e ≠ CalledProcessError
                ∧ ∃ title file fs, (exiftool_update title file fs).1 = Some e
            | SystemExit _ => False
            end
          ∧ ((∀ title file fs e, (exiftool_update title file fs).1 = Some e →
                                 e = CalledProcessError) →
             o = Ret ())
  else
    ∃ w', update_metadata exiftool_update w = (SystemExit 1, w')
          ∧ queue w' = queue w ∧ files w' = files w.
Proof.
  unfold update_metadata. destruct (db_ok w) eqn:Hdb.
  - erewrite run_bind by (unfold Db.select_keys; by rewrite Hdb).
    cbv beta iota. erewrite run_bind by reflexivity.
    destruct (update_metadata_loop (merge_sort Queue.key_le (Queue.key <$> queue w))
                (add_event (Log DEBUG "Successfully retrieved list of files to update metadata.") w))
      as (o & w' & Hrun & Hq & _ & Ho & _).
    exists o, w'. split; [exact Hrun|]. split; [done|]. split.
    + destruct o; [|done..]. rewrite Ho. cbn [events add_event].
      rewrite length_app, (Permutation_length (merge_sort_Permutation _ _)), length_fmap.
      simpl. lia.
    + intros Htool. destruct o as [[]|e|]; [done| |done].
      destruct Ho as (He & title & file & fs & Hraised). by apply Htool in Hraised.
  - erewrite run_bind by (unfold Db.select_keys; by rewrite Hdb).
    cbv beta iota. eexists. split; [reflexivity|]. done.
Qed.

(** X24. With a tool that writes to no file but the one it is given,
    [update_metadata] changes no file but those of the rows whose file
    name ends in [.mp4]: every other path holds afterwards what it held
    before. *)
Theorem update_metadata_touches_only_mp4_rows (w : World) (other : string) :
  (∀ title file fs, other ≠ file →
     (exiftool_update title file fs).2 !! other = fs !! other) →
  (∀ r, r ∈ queue w → Py.endswith (Queue.filename r) ".mp4" = true →
        other ≠ Queue.path r +:+ "/" +:+ Queue.filename r) →
  files (update_metadata exiftool_update w).2 !! other = files w !! other.
Proof.
  intros Htool Hother. unfold update_metadata. destruct (db_ok w) eqn:Hdb.
  - erewrite run_bind by (unfold Db.select_keys; by rewrite Hdb).
    cbv beta iota. erewrite run_bind by reflexivity.
    destruct (update_metadata_loop (merge_sort Queue.key_le (Queue.key <$> queue w))
                (add_event (Log DEBUG "Successfully retrieved list of files to update metadata.") w))
      as (o & w' & -> & _ & _ & _ & Hf).
    cbn [snd]. rewrite Hf; [done|done|].
    intros entry Hentry.
    rewrite (merge_sort_Permutation Queue.key_le (Queue.key <$> queue w)) in Hentry.
    apply list_elem_of_fmap in Hentry as (r & -> & Hr). by apply Hother.
  - by erewrite run_bind by (unfold Db.select_keys; by rewrite Hdb).
Qed.

End MetadataFacts.

Section DatabaseFacts.
Variable schema_file persist_db : string.
Variable executescript : M unit.

(** X25. Without the schema file [verify_database] ends the process
    with exit code 1 after one error line: the schema script is not run
    and the table is not queried. *)
Theorem verify_database_exits_without_schema (w : World) :
  files w !! schema_file = None →
  verify_database schema_file persist_db executescript w
  = (SystemExit 1,
     add_event (Log ERROR ("Schema file not found. Expected: '" +:+ schema_file +:+ "'.")) w).
Proof.
  intros Hmissing. unfold verify_database, setup_database.
  unfold mbind, M_bind, bind, Path.exists_, get, log, emit, sys_exit.
  rewrite Hmissing. by rewrite bool_decide_false by (by intros [? ?]).
Qed.

(** X26. With the schema file in place, a schema script that returns
    normally and leaves the rows alone, and a working storage,
    [verify_database] returns the number of rows of the table: zero
    exactly when the table is empty. *)
Theorem verify_database_counts_the_rows (w : World) :
  is_Some (files w !! schema_file) →
  (∀ w0, ∃ w1, executescript w0 = (Ret (), w1)
               ∧ queue w1 = queue w0 ∧ db_ok w1 = db_ok w0) →
  db_ok w = true →
  ∃ w',
    verify_database schema_file persist_db executescript w
    = (Ret (length (queue w)), w')
    ∧ queue w' = queue w
    ∧ (length (queue w) = 0%nat ↔ queue w = []).
Proof.
  intros Hschema Hscript Hdb. unfold verify_database.
  destruct (Hscript w) as (w1 & Hrun & Hq1 & Hdb1).
  assert (Hsetup : setup_database schema_file executescript w
                   = (Ret 0, add_event (Log DEBUG "SQLite database is ready.") w1)).
  { unfold setup_database. erewrite run_bind by apply run_exists.
    rewrite bool_decide_true by done.
    erewrite run_bind by exact Hrun. by erewrite run_bind by reflexivity. }
  erewrite run_bind by exact Hsetup.
  erewrite run_bind.
  2:{ unfold select_count. cbn [db_ok add_event]. rewrite Hdb1, Hdb. reflexivity. }
  cbv beta iota. cbn [queue add_event]. rewrite Hq1.
  eexists. split.
  - case_decide as Hlen; [|reflexivity]. by rewrite Hlen.
  - cbn [queue add_event]. split; [done|]. split.
    + by intros ?%nil_length_inv.
    + by intros ->.
Qed.

End DatabaseFacts.

End MoreProperties.

(** *** Across operations *)

Lemma grows_refl tbl : grows tbl tbl.
Proof.
  exists tbl, []. rewrite app_nil_r. split; [done|].
  apply Forall_Forall2_diag, Forall_forall. by intros r _.
Qed.

Lemma grows_trans tbl1 tbl2 tbl3 : grows tbl1 tbl2 → grows tbl2 tbl3 → grows tbl1 tbl3.
Proof.
  intros (kept & added & -> & H12) (kept' & added' & -> & H23).
  apply Forall2_app_inv_l in H23 as (k1 & k2 & Hk1 & Hk2 & ->).
  exists k1, (k2 ++ added'). split; [by rewrite app_assoc|].
  clear Hk2. revert k1 Hk1. induction H12 as [|r1 r2 l1 l2 Hr _ IH]; intros k1 Hk1.
  - by inversion Hk1.
  - inversion Hk1 as [|? r3 ? l3 Hr' Hl']; subst. constructor; [|by apply IH].
    destruct Hr as (?&?&?), Hr' as (?&?&?). unfold same_file. repeat split; congruence.
Qed.

Lemma step_grows w w' : step w w' → grows (queue w) (queue w').
Proof.
  intros [w0 u cid dt walk|w0 u BATCH DELETE ffmpeg l w1 Hsel
         |w0 DELETE ffmpeg l w1 Hsel|w0|w0 fs ok].
  - destruct (scan_directory_effect (unicode := u) cid dt walk w0)
      as (_ & _ & [[_ ->]|(rows & _ & _ & _ & -> & _)]); [apply grows_refl|].
    destruct (inserted_appends rows (queue w0)) as (committed & -> & _).
    exists (queue w0), committed. split; [done|].
    apply Forall_Forall2_diag, Forall_forall. by intros r _.
  - apply get_batch_ret in Hsel as [Hq _]. rewrite <- Hq.
    destruct (transcode_queue DELETE ffmpeg l w1) as [o w2] eqn:Hrun.
    apply touches_transcode_queue in Hrun. exists (queue w2), []. rewrite app_nil_r.
    split; [done|]. eapply Forall2_impl; [exact Hrun|].
    by intros r r' (?&?&?&_).
  - apply retry_failed_ret in Hsel as [Hq _]. rewrite <- Hq.
    destruct (transcode_queue DELETE ffmpeg l w1) as [o w2] eqn:Hrun.
    apply touches_transcode_queue in Hrun. exists (queue w2), []. rewrite app_nil_r.
    split; [done|]. eapply Forall2_impl; [exact Hrun|].
    by intros r r' (?&?&?&_).
  - destruct (final_results w0) as [r w1] eqn:Hrun. cbn [snd].
    destruct (quiet_final_results _ _ _ Hrun) as (-> & _). apply grows_refl.
  - apply grows_refl.
Qed.

(** X27. No operation of the core removes a row or changes what file
    a row is about: after any sequence of scans, batch runs, retry runs,
    reports and changes of the environment, the table starts with the
    rows it had, in their order, each with its path, filename and
    transcode flag, and new rows come after them. *)
Theorem rows_are_never_removed (w w' : World) :
  rtc step w w' →
  ∃ kept added,
    queue w' = kept ++ added
    ∧ Forall2 (λ r r',
          Queue.path r' = Queue.path r ∧ Queue.filename r' = Queue.filename r
          ∧ Queue.transcode r' = Queue.transcode r)
        (queue w) kept.
Proof.
  intros Hsteps. change (grows (queue w) (queue w')).
  induction Hsteps as [w|w w1 w2 Hstep _ IH]; [apply grows_refl|].
  eapply grows_trans; [by apply step_grows|exact IH].
Qed.





Lemma executemany_insert_unencodable rows tbl :
  NoDup (Queue.key <$> (tbl ++ rows)) →
  Exists (λ r, Queue.encodable r = false) rows →
  (Queue.executemany_insert rows tbl).2 = Queue.Unencodable.
Proof.
  revert tbl. induction rows as [|r rows IH]; intros tbl Hnd Hex.
  { by apply Exists_nil in Hex. }
  cbn [Queue.executemany_insert].
  destruct (Queue.encodable r) eqn:Henc; [|done]. cbn [negb].
  assert (Hfresh : Queue.violates_unique r tbl = false).
  { apply not_true_iff_false. rewrite violates_unique_spec.
    rewrite fmap_app, fmap_cons in Hnd. apply NoDup_app in Hnd as (_ & Hdisj & _).
    intros Hin. apply (Hdisj _ Hin). apply list_elem_of_here. }
  rewrite Hfresh. apply IH.
  - by rewrite <- app_assoc.
  - apply Exists_cons in Hex as [Hr|Hex]; [congruence|done].
Qed.

(** X30. A name that is not well-formed UTF-8 cannot be bound as a
    parameter of the [INSERT]: in a batch of new, pairwise distinct keys
    that has such a row, [executemany] raises [UnicodeEncodeError], which
    is no [sqlite3.Error], so neither handler runs and no error is
    logged; the [finally] clause still logs that the whole batch was
    inserted, and the exception leaves [insert_scan_results]. *)
Theorem insert_scan_results_raises_on_unencodable_name
    (insert_list : list Queue.row) (w : World) :
  db_ok w = true →
  NoDup (Queue.key <$> (queue w ++ insert_list)) →
  Exists (λ r, Queue.encodable r = false) insert_list →
  ∃ w',
    insert_scan_results insert_list w = (Raise UnicodeEncodeError, w')
    ∧ events w'
      = events w
        ++ [Log DEBUG "Inserting scanned results into SQLite database.";
            Log INFO ("Successfully inserted " +:+ pretty (length insert_list)
                      +:+ " entries into SQLite 'queue' table.")].
Proof.
  intros Hdb Hnd Hex.
  pose proof (executemany_insert_unencodable insert_list (queue w) Hnd Hex) as Hend.
  rewrite insert_scan_results_run. cbn zeta. rewrite Hdb.
  destruct (Queue.executemany_insert insert_list (queue w)) as [tbl ending].
  cbn [snd] in Hend. subst ending. eexists. split; [reflexivity|].
  cbn [events add_event]. by rewrite <- app_assoc.
Qed.

(** ** The theorems at concrete inputs *)


Lemma failed_transcode_leaves_no_output_witness :
  Transcode.output_file (Transcode.init "/mnt" "movie.mkv") = Some "/mnt/movie.mp4"
  ∧ Transcode.video_title (Transcode.init "/mnt" "movie.mkv") = Some "movie"
  ∧ ffmpeg_fails "/mnt/movie.mkv" "/mnt/movie.mp4" "movie" (files demo_world)
    = (FFmpegError, <["/mnt/movie.mp4" := 7%N]> (files demo_world))
  ∧ ∃ w',
      Transcode.transcode ffmpeg_fails (Transcode.init "/mnt" "movie.mkv") demo_world
      = (Ret "failed", w')
      ∧ files w' !! "/mnt/movie.mp4" = None
      ∧ files w' = delete "/mnt/movie.mp4" (<["/mnt/movie.mp4" := 7%N]> (files demo_world))
      ∧ Unlink "/mnt/movie.mp4" ∈ events w'.
Proof.
  repeat (split; [reflexivity|]).
  destruct (failed_transcode_leaves_no_output ffmpeg_fails "/mnt" "movie.mkv"
              "/mnt/movie.mp4" "movie"
              (<["/mnt/movie.mp4" := 7%N]> (files demo_world)) demo_world
              eq_refl eq_refl eq_refl)
    as (w' & Hrun & Hnone & Hfiles & Hunlink & _).
  exists w'. split; [exact Hrun|]. split; [exact Hnone|]. split; [exact Hfiles|].
  apply Hunlink. exists 7%N. by vm_compute.
Defined.

Lemma original_disposed_only_when_done_and_DELETE_witness :
  Transcode.output_file (Transcode.init "/mnt" "movie.mkv") = Some "/mnt/movie.mp4"
  ∧ Transcode.video_title (Transcode.init "/mnt" "movie.mkv") = Some "movie"
  ∧ ffmpeg_ok "/mnt/movie.mkv" "/mnt/movie.mp4" "movie" (files demo_world)
    = (Completed, <["/mnt/movie.mp4" := 40%N]> (files demo_world))
  ∧ ∃ w',
      transcode_queue true ffmpeg_ok [("/mnt", "movie.mkv")] demo_world = (Ret (), w')
      ∧ files w' !! "/mnt/movie.mkv" = None
      ∧ files w' !! "/mnt/movie.mp4" = Some 40%N.
Proof.
  repeat (split; [reflexivity|]).
  destruct (original_disposed_only_when_done_and_DELETE true ffmpeg_ok
              "/mnt" "movie.mkv" "/mnt/movie.mp4" "movie" Completed
              (<["/mnt/movie.mp4" := 40%N]> (files demo_world)) demo_world
              eq_refl eq_refl eq_refl)
    as (outcome & w' & Hrun & _ & Hdone).
  destruct (Hdone 100%N 40%N eq_refl eq_refl eq_refl eq_refl) as (-> & Hmkv & _).
  destruct (Hmkv eq_refl) as (_ & Hin & Hout).
  exists w'. auto.
Defined.



Lemma scanned_world_reachable : reachable scanned_world.
Proof.
  apply (reachable_step empty_world).
  - by apply reachable_empty.
  - apply step_scan.
Qed.

Lemma never_selects_transcode_N_witness :
  reachable scanned_world
  ∧ queue scanned_world
    = [Queue.Row "/mnt" "movie.mkv" "Y" "queued";
       Queue.Row "/mnt" "clip.mp4" "N" "skipped"]
  ∧ ∀ r, r ∈ queue scanned_world → Queue.transcode r = "N" →
      (∀ unicode BATCH queue_list w1,
         get_batch unicode BATCH scanned_world = (Ret queue_list, w1) →
         Queue.key r ∉ queue_list)
      ∧ (∀ queue_list w1,
           retry_failed scanned_world = (Ret queue_list, w1) →
           Queue.key r ∉ queue_list).
Proof.
  split; [exact scanned_world_reachable|]. split; [reflexivity|].
  apply (never_selects_transcode_N scanned_world scanned_world_reachable).
Defined.

(** ** The further theorems at concrete inputs *)

Lemma update_status_of_absent_key_reports_success_witness :
  db_ok demo_world = true
  ∧ (("/mnt", "gone.mkv") ∉ Queue.key <$> queue demo_world)
  ∧ ∃ w',
      update_status "/mnt" "gone.mkv" "done" demo_world = (Ret (), w')
      ∧ queue w' = queue demo_world
      ∧ Log INFO "Updated status for '/mnt/gone.mkv' to 'done'." ∈ events w'.
Proof.
  assert (Habsent : ("/mnt", "gone.mkv") ∉ Queue.key <$> queue demo_world)
    by (by apply (bool_decide_unpack _)).
  split; [reflexivity|]. split; [exact Habsent|].
  exact (update_status_of_absent_key_reports_success "/mnt" "gone.mkv" "done"
           demo_world eq_refl Habsent).
Defined.

Lemma video_title_is_the_stem_witness :
  is_video "movie.mkv" = true
  ∧ ∃ title ext,
      Transcode.video_title (Transcode.init "/mnt" "movie.mkv") = Some title
      ∧ (ext = ".mkv" ∨ ext = ".mp4")
      ∧ title +:+ ext = "movie.mkv".
Proof.
  split; [reflexivity|].
  exact (video_title_is_the_stem "/mnt" "movie.mkv" eq_refl).
Defined.

Lemma output_file_replaces_the_extension_witness :
  is_video "movie.mkv" = true
  ∧ (∀ i, (i + 4 < 14)%nat →
          Py.startswith (Py.drop i "/mnt/movie.mkv") ".mkv" = false)
  ∧ Transcode.output_file (Transcode.init "/mnt" "movie.mkv")
    = Some (replace_extension "/mnt/movie.mkv" ".mkv" ".mp4").
Proof.
  assert (Hocc : ∀ i, (i + 4 < 14)%nat →
            Py.startswith (Py.drop i "/mnt/movie.mkv") ".mkv" = false).
  { intros i Hi. do 10 (destruct i as [|i]; [reflexivity|]). lia. }
  split; [reflexivity|]. split; [exact Hocc|].
  exact (output_file_replaces_the_extension "/mnt" "movie.mkv" eq_refl Hocc).
Defined.

Lemma output_file_has_the_target_extension_witness :
  is_video "clip.mp4" = true
  ∧ ∃ out,
      Transcode.output_file (Transcode.init "/mnt" "clip.mp4") = Some out
      ∧ Py.endswith out ".h265" = true.
Proof.
  split; [reflexivity|].
  exact (output_file_has_the_target_extension "/mnt" "clip.mp4" eq_refl).
Defined.



Lemma transcode_queue_leaves_no_entry_pending_witness :
  db_ok demo_world = true
  ∧ Forall (λ entry, is_video entry.2 = true) [("/mnt", "movie.mkv")]
  ∧ (transcode_queue false ffmpeg_ok [("/mnt", "movie.mkv")] demo_world).1 = Ret ()
  ∧ ∀ r',
      r' ∈ queue (transcode_queue false ffmpeg_ok [("/mnt", "movie.mkv")] demo_world).2 →
      Queue.key r' ∈ [("/mnt", "movie.mkv")] →
      Queue.status r' = "done" ∨ Queue.status r' = "failed".
Proof.
  assert (Hvideos : Forall (λ entry : string * string, is_video entry.2 = true)
                      [("/mnt", "movie.mkv")]) by (by repeat constructor).
  assert (Hrun : transcode_queue false ffmpeg_ok [("/mnt", "movie.mkv")] demo_world
                 = (Ret (),
                    (transcode_queue false ffmpeg_ok [("/mnt", "movie.mkv")]
                       demo_world).2)) by (by vm_compute).
  split; [reflexivity|]. split; [exact Hvideos|]. split; [by vm_compute|].
  exact (transcode_queue_leaves_no_entry_pending false ffmpeg_ok
           [("/mnt", "movie.mkv")] demo_world _ eq_refl Hvideos Hrun).
Defined.

Lemma retry_failed_raises_on_storage_error_witness :
  db_ok broken_world = false
  ∧ retry_failed broken_world
    = (Raise (UnboundLocalError "failed_status_data"),
       add_event (Log ERROR "<class 'sqlite3.Error'>")
         (add_event (Log ERROR "SQLite status query failed.") broken_world)).
Proof.
  split; [reflexivity|].
  exact (retry_failed_raises_on_storage_error broken_world eq_refl).
Defined.

Lemma final_results_raises_on_storage_error_witness :
  db_ok broken_world = false
  ∧ final_results broken_world
    = (Raise (UnboundLocalError "status_data"),
       add_event (Log ERROR "<class 'sqlite3.Error'>")
         (add_event (Log ERROR "SQLite status query failed.") broken_world)).
Proof.
  split; [reflexivity|].
  exact (final_results_raises_on_storage_error broken_world eq_refl).
Defined.

Lemma get_batch_exits_on_storage_error_witness :
  db_ok broken_world = false
  ∧ ∃ w',
      get_batch demo_unicode "3" broken_world = (SystemExit 1, w')
      ∧ queue w' = queue broken_world ∧ files w' = files broken_world
      ∧ Log ERROR "SQLite transcode selection query failed." ∈ events w'.
Proof.
  split; [reflexivity|].
  exact (get_batch_exits_on_storage_error (unicode := demo_unicode) "3" broken_world
           eq_refl).
Defined.

Lemma insert_scan_results_inserts_fresh_batch_witness :
  db_ok empty_world = true
  ∧ Forall (λ r, Queue.encodable r = true) [row_a; row_b]
  ∧ NoDup (Queue.key <$> (queue empty_world ++ [row_a; row_b]))
  ∧ ∃ w',
      insert_scan_results [row_a; row_b] empty_world = (Ret (), w')
      ∧ queue w' = [row_a; row_b]
      ∧ files w' = files empty_world.
Proof.
  assert (Hfresh : NoDup (Queue.key <$> (queue empty_world ++ [row_a; row_b])))
    by (by apply (bool_decide_unpack _)).
  assert (Henc : Forall (λ r, Queue.encodable r = true) [row_a; row_b])
    by (by repeat constructor).
  split; [reflexivity|]. split; [exact Henc|]. split; [exact Hfresh|].
  destruct (insert_scan_results_inserts_fresh_batch [row_a; row_b] empty_world
              eq_refl Henc Hfresh) as (w' & Hrun & Hq & Hf & _).
  exists w'. auto.
Defined.

Lemma scan_directory_exits_on_empty_scan_witness :
  (∀ root files filename,
     (root, files) ∈ txt_walk "/mnt" → filename ∈ files → is_video filename = false)
  ∧ ∃ w',
      (∀ cid dt,
         scan_directory demo_unicode cid dt txt_walk empty_world = (SystemExit 1, w'))
      ∧ queue w' = queue empty_world ∧ files w' = files empty_world
      ∧ last (events w')
        = Some (Log WARNING "Empty scan results. Is the volume mounted? Exiting.").
Proof.
  assert (Hnone : ∀ root files filename,
            (root, files) ∈ txt_walk "/mnt" → filename ∈ files →
            is_video filename = false).
  { intros root files filename Hin Hf. unfold txt_walk in Hin.
    apply list_elem_of_singleton in Hin. injection Hin as -> ->.
    apply elem_of_cons in Hf as [->|Hf]; [reflexivity|].
    apply list_elem_of_singleton in Hf as ->. reflexivity. }
  split; [exact Hnone|].
  exact (scan_directory_exits_on_empty_scan (unicode := demo_unicode)
           demo_probe demo_probe txt_walk empty_world Hnone).
Defined.

Lemma scan_directory_queues_mkv_without_probing_witness :
  (∀ root files filename,
     (root, files) ∈ mkv_walk "/mnt" → filename ∈ files →
     is_video filename = true → Py.endswith filename ".mkv" = true)
  ∧ scan_directory demo_unicode demo_probe demo_probe mkv_walk empty_world
    = scan_directory demo_unicode probe_error probe_error mkv_walk empty_world
  ∧ ∃ added,
      queue (scan_directory demo_unicode demo_probe demo_probe mkv_walk empty_world).2
      = queue empty_world ++ added
      ∧ Forall (λ r, Queue.transcode r = "Y" ∧ Queue.status r = "queued") added.
Proof.
  assert (Hmkv : ∀ root files filename,
            (root, files) ∈ mkv_walk "/mnt" → filename ∈ files →
            is_video filename = true → Py.endswith filename ".mkv" = true).
  { intros root files filename Hin Hf. unfold mkv_walk in Hin.
    apply list_elem_of_singleton in Hin. injection Hin as -> ->.
    apply elem_of_cons in Hf as [->|Hf]; [reflexivity|].
    apply list_elem_of_singleton in Hf as ->. discriminate. }
  split; [exact Hmkv|].
  exact (scan_directory_queues_mkv_without_probing (unicode := demo_unicode)
           demo_probe demo_probe probe_error probe_error mkv_walk empty_world Hmkv).
Defined.

Lemma update_metadata_touches_only_mp4_rows_witness :
  (∀ title file fs, "/mnt/movie.mkv" ≠ file →
     (demo_exiftool title file fs).2 !! "/mnt/movie.mkv" = fs !! "/mnt/movie.mkv")
  ∧ (∀ r, r ∈ queue demo_world → Py.endswith (Queue.filename r) ".mp4" = true →
          "/mnt/movie.mkv" ≠ Queue.path r +:+ "/" +:+ Queue.filename r)
  ∧ files (update_metadata demo_exiftool demo_world).2 !! "/mnt/movie.mkv"
    = files demo_world !! "/mnt/movie.mkv".
Proof.
  assert (Htool : ∀ title file (fs : gmap string N), "/mnt/movie.mkv" ≠ file →
            (demo_exiftool title file fs).2 !! "/mnt/movie.mkv"
            = fs !! "/mnt/movie.mkv").
  { intros title file fs Hne. by apply lookup_alter_ne. }
  assert (Hrows : ∀ r, r ∈ queue demo_world →
            Py.endswith (Queue.filename r) ".mp4" = true →
            "/mnt/movie.mkv" ≠ Queue.path r +:+ "/" +:+ Queue.filename r).
  { intros r Hr. unfold demo_world in Hr. cbn [queue] in Hr.
    repeat (apply elem_of_cons in Hr as [->|Hr];
      [intros Hend; vm_compute in Hend; first [discriminate Hend | by vm_compute]|]).
    by apply elem_of_nil in Hr. }
  split; [exact Htool|]. split; [exact Hrows|].
  exact (update_metadata_touches_only_mp4_rows demo_exiftool demo_world
           "/mnt/movie.mkv" Htool Hrows).
Defined.

Lemma verify_database_exits_without_schema_witness :
  files demo_world !! demo_schema = None
  ∧ verify_database demo_schema "/app/queue.db" demo_executescript demo_world
    = (SystemExit 1,
       add_event (Log ERROR "Schema file not found. Expected: '/app/schema.sql'.")
         demo_world).
Proof.
  split; [reflexivity|].
  exact (verify_database_exits_without_schema demo_schema "/app/queue.db"
           demo_executescript demo_world eq_refl).
Defined.

Lemma verify_database_counts_the_rows_witness :
  is_Some (files schema_world !! demo_schema)
  ∧ (∀ w0, ∃ w1, demo_executescript w0 = (Ret (), w1)
                 ∧ queue w1 = queue w0 ∧ db_ok w1 = db_ok w0)
  ∧ db_ok schema_world = true
  ∧ ∃ w',
      verify_database demo_schema "/app/queue.db" demo_executescript schema_world
      = (Ret 2%nat, w')
      ∧ queue w' = queue schema_world.
Proof.
  assert (Hschema : is_Some (files schema_world !! demo_schema)) by (by eexists).
  assert (Hscript : ∀ w0, ∃ w1, demo_executescript w0 = (Ret (), w1)
                                ∧ queue w1 = queue w0 ∧ db_ok w1 = db_ok w0)
    by (intros w0; by exists w0).
  split; [exact Hschema|]. split; [exact Hscript|]. split; [reflexivity|].
  destruct (verify_database_counts_the_rows demo_schema "/app/queue.db"
              demo_executescript schema_world Hschema Hscript eq_refl)
    as (w' & Hrun & Hq & _).
  exists w'. auto.
Defined.

Lemma rows_are_never_removed_witness :
  rtc step empty_world (final_results scanned_world).2
  ∧ ∃ kept added,
      queue (final_results scanned_world).2 = kept ++ added
      ∧ Forall2 (λ r r',
            Queue.path r' = Queue.path r ∧ Queue.filename r' = Queue.filename r
            ∧ Queue.transcode r' = Queue.transcode r)
          (queue empty_world) kept.
Proof.
  assert (Hsteps : rtc step empty_world (final_results scanned_world).2).
  { eapply rtc_l;
      [exact (step_scan empty_world demo_unicode demo_probe demo_probe demo_walk)|].
    apply rtc_once. exact (step_report scanned_world). }
  split; [exact Hsteps|].
  exact (rows_are_never_removed empty_world _ Hsteps).
Defined.



Lemma insert_scan_results_raises_on_unencodable_name_witness :
  db_ok empty_world = true
  ∧ NoDup (Queue.key <$> (queue empty_world ++ [row_a; row_latin1]))
  ∧ Exists (λ r, Queue.encodable r = false) [row_a; row_latin1]
  ∧ ∃ w',
      insert_scan_results [row_a; row_latin1] empty_world
      = (Raise UnicodeEncodeError, w')
      ∧ last (events w')
        = Some (Log INFO "Successfully inserted 2 entries into SQLite 'queue' table.").
Proof.
  assert (Hfresh : NoDup (Queue.key <$> (queue empty_world ++ [row_a; row_latin1])))
    by (by apply (bool_decide_unpack _)).
  assert (Hbad : Exists (λ r, Queue.encodable r = false) [row_a; row_latin1])
    by (apply Exists_cons_tl, Exists_cons_hd; reflexivity).
  split; [reflexivity|]. split; [exact Hfresh|]. split; [exact Hbad|].
  destruct (insert_scan_results_raises_on_unencodable_name [row_a; row_latin1]
              empty_world eq_refl Hfresh Hbad) as (w' & Hrun & Hev).
  exists w'. split; [exact Hrun|]. rewrite Hev. reflexivity.
Defined.
